(** * LIT front-end: classification results table and slice editor

    A shallow embedding of two modules of the LIT client:

    - [ClassificationModule] (classification_module.ts): [updateSelection],
      [parseResult], the row builder of [renderFeatureTable] and the filter
      of [renderImpl];
    - [SliceModule] (core/slice_module.ts): [getArrayData],
      [makeSlicesFromAllLabelCombos] and the click handlers of
      [renderSliceRow], over the slice and group services they call.

    JavaScript numbers are binary64 floats (Rocq's primitive floats), JS
    objects used as string-keyed dictionaries are [gmap string _], written
    by [setProperty] and, where the order of their keys matters, listed by
    [ownPropertyOrder]; arrays are lists, and a thrown exception is the
    [Throw] outcome of a small error monad. *)

From Stdlib Require Import Floats.
From stdpp Require Import gmap strings list fin_maps pretty sorting.

Set Warnings "-inexact-float".

(** ** Exceptions *)

Inductive Exn :=
  | TypeError
  | DuplicateNameError
  | UnknownSliceError
  | ProtectedSliceError.

Inductive result (A : Type) :=
  | Ok (a : A)
  | Throw (e : Exn).
Arguments Ok {A} a.
Arguments Throw {A} e.

#[global] Instance result_bind : MBind result := λ A B k r,
  match r with
  | Ok a => k a
  | Throw e => Throw e
  end.

(** ** JavaScript objects used as dictionaries *)

(** [obj[key] = v] on a plain object. The key [__proto__] is the prototype
    accessor that every plain object inherits: assigning to it changes the
    prototype at most and creates no own property, so the key is never
    among the object's entries. *)
Definition setProperty {V} (key : string) (v : V) (obj : gmap string V)
    : gmap string V :=
  if decide (key = "__proto__") then obj else <[key := v]> obj.

(** The value of a decimal digit, and of a string of digits. *)
Definition digitOf (c : Ascii.ascii) : option N :=
  let n := Ascii.N_of_ascii c in
  if (48 <=? n)%N && (n <=? 57)%N then Some (n - 48)%N else None.

Fixpoint digitsValue (s : string) (acc : N) : option N :=
  match s with
  | EmptyString => Some acc
  | String c rest => d ← digitOf c; digitsValue rest (10 * acc + d)%N
  end.

(** A key is an array index when it is the canonical decimal string of an
    integer from 0 to 2^32 - 2: digits only and no leading zero. *)
Definition arrayIndex (key : string) : option N :=
  match key with
  | EmptyString => None
  | String c rest =>
      if bool_decide (Ascii.N_of_ascii c = 48%N) && negb (bool_decide (rest = ""))
      then None
      else n ← digitsValue key 0;
           if (n <=? 4294967294)%N then Some n else None
  end.

Definition indexLe {A} (a b : N * A) : Prop := (a.1 ≤ b.1)%N.

#[global] Instance indexLe_dec {A} : RelDecision (@indexLe A) :=
  λ a b, decide (a.1 ≤ b.1)%N.

(** The order in which [Object.keys] and [Object.entries] list the
    properties of an object whose properties were created in the order of
    [entries]: the array indices first, in ascending numeric order, then
    the other keys in creation order. *)
Definition ownPropertyOrder {V} (entries : list (string * V))
    : list (string * V) :=
  (snd <$> merge_sort indexLe
             (omap (λ e, n ← arrayIndex e.1; Some (n, e)) entries))
  ++ filter (λ e, arrayIndex e.1 = None) entries.

(** ** Data shared by the two modules *)

(** A feature value of a datapoint ([row.data[c]] is typed [any]). *)
Inductive FeatureValue :=
  | FString (s : string)
  | FNumber (x : float)
  | FBool (b : bool).

(** [IndexedInput]: a datapoint of the dataset, identified by [id]. *)
Record IndexedInput := {
  id : string;
  data : gmap string FeatureValue;
}.

(** ** The classification results module *)

Module ClassificationModule.

Definition SPARSE_MODE_THRESHOLD : float := 0.01%float.

(** [DisplayInfo]. [value] is [predScores[i]], which JavaScript evaluates to
    [undefined] past the end of the array: [None] stands for [undefined].
    [color] is [None] when the property is absent or [undefined]. *)
Record DisplayInfo := {
  value : option float;
  isTruth : bool;
  isPredicted : bool;
  color : option string;
}.

Abbreviation LabelRows := (gmap string (list DisplayInfo)).
Abbreviation LabeledPredictions := (gmap string (gmap string (list DisplayInfo))).

Inductive CalculatedColumnType := PREDICTED_CLASS | CORRECT.

(** The fields of a model's output spec. Of [MulticlassPreds] the module
    reads [parent] and [vocab]; either may be missing ([None]). *)
Inductive FieldSpec :=
  | MulticlassPreds (parent : option string) (vocab : option (list string))
  | OtherField.

(** [colorService.selectedColorOption]: its [name] and what [scale.range()]
    returns; [None] when the scale has no [range] method (a sequential
    scale), in which case the call throws. *)
Record ColorOption := {
  name : string;
  scaleRange : option (list string);
}.

(** The services the module reads. [getVal] of the data service is used at
    two types: a score column holds an array of numbers or null, a class or
    label column holds a string or null; null and [undefined] are [None]. *)
Record Services := {
  compareExamplesEnabled : bool;
  currentModels : list string;
  getModelSpec : string → list (string * FieldSpec);
  selectedColorOption : ColorOption;
  getColumnName : string → string → option CalculatedColumnType → string;
  getScores : string → string → option (list float);
  getLabel : string → string → option string;
  pinnedInputData : option IndexedInput;
  selectedInputData : option IndexedInput;
  sparseMode : bool;
}.

(** Modelled from the spec: [findSpecKeys] of lib/utils is not among the
    sources; it returns the keys of the output spec whose field is a
    classification head, in the order of the spec. *)
Definition findSpecKeys (output : list (string * FieldSpec)) : list string :=
  omap (λ kv, match kv.2 with
              | MulticlassPreds _ _ => Some kv.1
              | OtherField => None
              end) output.

(** [output[predKey]]: the first field under that key. *)
Fixpoint getField (output : list (string * FieldSpec)) (predKey : string)
    : option FieldSpec :=
  match output with
  | [] => None
  | (k, f) :: rest => if decide (k = predKey) then Some f else getField rest predKey
  end.

(** The element of [inputData] built for one datapoint. *)
Record InputData := {
  predScores : option (list float);
  predClass : option string;
  truth : option string;
}.

(** [ToNumber] on a value that is a number or [undefined]. *)
Definition toNumber (v : option float) : float := default nan v.

(** [x === y] between a string and a value that is a string or null. *)
Definition strictEq (x : string) (y : option string) : bool :=
  match y with
  | Some s => bool_decide (x = s)
  | None => false
  end.

(** [colorableKeys.includes(colorOption.name)] for
    [[predClassKey, predCorrectKey, parent]]; a missing [parent] equals no
    string. *)
Definition includesName (predClassKey predCorrectKey : string)
    (parent : option string) (n : string) : bool :=
  bool_decide (n = predClassKey) || bool_decide (n = predCorrectKey)
  || strictEq n parent.

Section parse.
Context (svc : Services).

(** What one datapoint contributes to the row of [label], the [i]-th
    label: the body of the loop over [inputData]. [None] is [continue]
    without a push or a failed threshold test. *)
Definition rowPred (applyColor : bool) (colorRange : list string)
    (predCorrectKey label : string) (i : nat) (d : InputData)
    : option DisplayInfo :=
  match predScores d with
  | None =>
      if negb (sparseMode svc)
      then Some {| value := Some 0%float; isPredicted := false;
                   isTruth := false; color := None |}
      else None
  | Some scores =>
      let value := scores !! i in
      let isPredicted := strictEq label (predClass d) in
      let isTruth := strictEq label (truth d) in
      if negb (sparseMode svc) || (SPARSE_MODE_THRESHOLD <=? toNumber value)%float
      then Some {| value := value; isPredicted := isPredicted;
                   isTruth := isTruth;
                   color :=
                     if applyColor then
                       if bool_decide (name (selectedColorOption svc) = predCorrectKey)
                       then colorRange !! (if isTruth then 1 else 0)
                       else colorRange !! i
                     else None |}
      else None
  end.

Definition rowPreds (applyColor : bool) (colorRange : list string)
    (predCorrectKey label : string) (i : nat) (inputData : list InputData)
    : list DisplayInfo :=
  omap (rowPred applyColor colorRange predCorrectKey label i) inputData.

(** [labels.forEach((label, i) => ...)], from index [i] on; a non-empty
    row list is stored by the assignment [table[label] = rowPreds]. *)
Fixpoint forEachLabel (applyColor : bool) (colorRange : list string)
    (predCorrectKey : string) (inputData : list InputData)
    (labels : list string) (i : nat) (rows : LabelRows) : LabelRows :=
  match labels with
  | [] => rows
  | label :: rest =>
      let rp := rowPreds applyColor colorRange predCorrectKey label i inputData in
      forEachLabel applyColor colorRange predCorrectKey inputData rest (S i)
        (match rp with
         | [] => rows
         | _ :: _ => setProperty label rp rows
         end)
  end.

(** [vocab || Array.from({length: inputData[0].predScores.length}, ...)]:
    reading [predScores] of a missing first element, or [length] of null
    scores, throws. *)
Definition labelsOf (vocab : option (list string))
    (inputData : list InputData) : result (list string) :=
  match vocab with
  | Some labels => Ok labels
  | None =>
      match inputData with
      | [] => Throw TypeError
      | d :: _ =>
          match predScores d with
          | None => Throw TypeError
          | Some scores => Ok ((λ k : nat, pretty k) <$> seq 0 (length scores))
          end
      end
  end.

(** [inputs.map(i => ({predScores, predClass, truth}))]. *)
Definition inputDataOf (topLevelKey predClassKey : string)
    (parent : option string) (inputs : list IndexedInput) : list InputData :=
  (λ i, {| predScores := getScores svc (id i) topLevelKey;
           predClass := getLabel svc (id i) predClassKey;
           truth := match parent with
                    | Some p => getLabel svc (id i) p
                    | None => None
                    end |}) <$> inputs.

(** [applyColor ? colorOption.scale.range() : []]; a scale without a
    [range] method makes the call throw. *)
Definition colorRangeOf (applyColor : bool) : result (list string) :=
  if applyColor
  then match scaleRange (selectedColorOption svc) with
       | Some r => Ok r
       | None => Throw TypeError
       end
  else Ok [].

(** One iteration of the loop over the prediction heads: the key and the
    table stored under it. *)
Definition parseHead (model : string) (inputs : list IndexedInput)
    (output : list (string * FieldSpec)) (predKey : string)
    : result (string * LabelRows) :=
  let topLevelKey := getColumnName svc model predKey None in
  let predClassKey := getColumnName svc model predKey (Some PREDICTED_CLASS) in
  let predCorrectKey := getColumnName svc model predKey (Some CORRECT) in
  '(parent, vocab) ←
    match getField output predKey with
    | Some (MulticlassPreds parent vocab) => Ok (parent, vocab)
    | Some OtherField => Ok (None, None)
    | None => Throw TypeError
    end;
  let inputData := inputDataOf topLevelKey predClassKey parent inputs in
  labels ← labelsOf vocab inputData;
  let colorOption := selectedColorOption svc in
  let applyColor := includesName predClassKey predCorrectKey parent (name colorOption) in
  colorRange ← colorRangeOf applyColor;
  Ok (topLevelKey,
      forEachLabel applyColor colorRange predCorrectKey inputData labels 0 ∅).

(** The loop over the prediction heads; the table of a head is stored by
    the assignment [labeledPredictions[topLevelKey] = {}] and filled in
    place. *)
Fixpoint parseHeads (model : string) (inputs : list IndexedInput)
    (output : list (string * FieldSpec)) (keys : list string)
    (labeledPredictions : LabeledPredictions) : result LabeledPredictions :=
  match keys with
  | [] => Ok labeledPredictions
  | predKey :: rest =>
      '(topLevelKey, rows) ← parseHead model inputs output predKey;
      parseHeads model inputs output rest
        (setProperty topLevelKey rows labeledPredictions)
  end.

Definition parseResult (model : string) (inputs : list IndexedInput)
    : result LabeledPredictions :=
  let output := getModelSpec svc model in
  parseHeads model inputs output (findSpecKeys output) ∅.

(** The datapoints [updateSelection] collects: the pinned one first when
    comparing, then the selected one. *)
Definition selectionData : list IndexedInput :=
  (if compareExamplesEnabled svc then option_list (pinnedInputData svc) else [])
  ++ option_list (selectedInputData svc).

(** The loop over the current models; [Object.assign] overwrites the keys
    of the new table in the module's field and keeps the others. A throw
    leaves the field as the earlier models left it. *)
Fixpoint assignModels (models : list string) (inputs : list IndexedInput)
    (labeledPredictions : LabeledPredictions)
    : LabeledPredictions * option Exn :=
  match models with
  | [] => (labeledPredictions, None)
  | model :: rest =>
      match parseResult model inputs with
      | Throw e => (labeledPredictions, Some e)
      | Ok new => assignModels rest inputs (new ∪ labeledPredictions)
      end
  end.

(** [updateSelection], as a function of the field [labeledPredictions]:
    the new value of the field and the exception that rejected the
    promise, if any. *)
Definition updateSelection (labeledPredictions : LabeledPredictions)
    : LabeledPredictions * option Exn :=
  let data := selectionData in
  if bool_decide (length data = 0) then (∅, None)
  else assignModels (currentModels svc) data labeledPredictions.

(** [fieldName.startsWith(model)]. *)
Definition startsWith (fieldName model : string) : bool :=
  String.prefix model fieldName.

(** [activeLabeledPreds] of [renderImpl]. *)
Definition activeLabeledPreds (labeledPredictions : LabeledPredictions)
    : LabeledPredictions :=
  filter (λ kv, existsb (startsWith kv.1) (currentModels svc) = true)
    labeledPredictions.

End parse.

(** Cells of the rendered table: the class label, a score bar, the delta. *)
Inductive TableEntry :=
  | Label (s : string)
  | ScoreBar (pred : DisplayInfo) (hasTruth : bool)
  | Delta (x : float).

(** The row [renderFeatureTable] builds for one entry of [labelRow]. *)
Definition tableRow (hasGroundTruth : bool) (label : string)
    (values : list DisplayInfo) : list TableEntry :=
  Label label :: ((λ p, ScoreBar p hasGroundTruth) <$> values)
  ++ match values with
     | [pinned; selected] =>
         [Delta (abs (toNumber (value pinned) - toNumber (value selected)))]
     | _ => []
     end.

(** The headers of the table: the class column or a titled score column. *)
Inductive ColumnHeader :=
  | ClassColumn
  | Titled (title : string).

(** [columnNames] of [renderFeatureTable]; reading [length] of the first
    row of an empty table throws. *)
Definition columnNamesOf (compareExamplesEnabled : bool)
    (rows : list (list TableEntry)) : result (list ColumnHeader) :=
  match rows with
  | [] => Throw TypeError
  | row0 :: _ =>
      Ok (if 2 <? length row0
          then [ClassColumn; Titled "Score - Pinned"; Titled "Score - Selected";
                Titled "Δ(Pinned, Selected)"]
          else if compareExamplesEnabled
               then [ClassColumn; Titled "Score - Pinned"]
               else [ClassColumn; Titled "Score"])
  end.

(** [renderFeatureTable] on [entries], the result of
    [Object.entries(labelRow)]: the column names and the rows handed to the
    data table. *)
Definition renderFeatureTable (svc : Services) (hasGroundTruth : bool)
    (entries : list (string * list DisplayInfo))
    : result (list ColumnHeader * list (list TableEntry)) :=
  let rows := (λ e, tableRow hasGroundTruth e.1 e.2) <$> entries in
  columnNames ← columnNamesOf (compareExamplesEnabled svc) rows;
  Ok (columnNames, rows).

(** [onClickSwitch] of [renderImpl]: the switch flips [sparseMode]. *)
Definition onClickSwitch (svc : Services) : Services :=
  {| compareExamplesEnabled := compareExamplesEnabled svc;
     currentModels := currentModels svc;
     getModelSpec := getModelSpec svc;
     selectedColorOption := selectedColorOption svc;
     getColumnName := getColumnName svc;
     getScores := getScores svc;
     getLabel := getLabel svc;
     pinnedInputData := pinnedInputData svc;
     selectedInputData := selectedInputData svc;
     sparseMode := negb (sparseMode svc) |}.

(** [clsFieldSpecs] of [renderImpl]: [parent] and [vocab] of the
    classification heads of the current models. *)
Definition clsFieldSpecs (svc : Services)
    : list (option string * option (list string)) :=
  currentModels svc ≫= λ model,
    omap (λ kv, match kv.2 with
                | MulticlassPreds parent vocab => Some (parent, vocab)
                | OtherField => None
                end) (getModelSpec svc model).

(** [clsFieldSpecs.some(fs => fs.parent != null && fs.parent in
    currentDatasetSpec)], over the keys of the dataset spec. *)
Definition hasGroundTruth (currentDatasetSpec : list string)
    (specs : list (option string * option (list string))) : bool :=
  existsb (λ fs, match fs.1 with
                 | Some parent => bool_decide (parent ∈ currentDatasetSpec)
                 | None => false
                 end) specs.

(** [clsFieldSpecs.some(fs => fs.vocab.length > 10)]: [some] stops at the
    first head with more than ten labels; reading [length] of a missing
    vocabulary throws. *)
Fixpoint allowSparseMode (specs : list (option string * option (list string)))
    : result bool :=
  match specs with
  | [] => Ok false
  | (_, vocab) :: rest =>
      match vocab with
      | None => Throw TypeError
      | Some labels =>
          if 10 <? length labels then Ok true else allowSparseMode rest
      end
  end.

End ClassificationModule.

(** ** The slice service *)

Module SliceService.

(** The slices in display order, each a name and its id set. *)
Abbreviation Slices := (list (string * gset string)).

Section service.
(** The reserved name, a constant of services/slice_service. *)
Context (STARRED_SLICE_NAME : string).

(** Modelled from the spec: the slice service is not among the sources.
    The starred slice is always present, first in the list, and is never
    created. *)
Definition initial : Slices := [(STARRED_SLICE_NAME, ∅)].

Definition sliceNames (slices : Slices) : list string := slices.*1.

Fixpoint lookupSlice (slices : Slices) (name : string) : option (gset string) :=
  match slices with
  | [] => None
  | (n, ids) :: rest => if decide (n = name) then Some ids else lookupSlice rest name
  end.

Definition updateSlice (f : gset string → gset string) (name : string)
    (slices : Slices) : Slices :=
  (λ s, if decide (s.1 = name) then (s.1, f s.2) else s) <$> slices.

(** Modelled from the spec: [getIds(name)], the service's
    [getSliceByName]; a pure query, empty for an unknown name. *)
Definition getSliceByName (slices : Slices) (name : string) : gset string :=
  default ∅ (lookupSlice slices name).

(** Modelled from the spec: [isMember(name, id)], the service's
    [isInSlice]; false for an unknown name. *)
Definition isInSlice (slices : Slices) (name id : string) : bool :=
  bool_decide (id ∈ getSliceByName slices name).

(** Modelled from the spec: [createSlice(name, ids)], the service's
    [addNamedSlice]: fails with [DuplicateNameError] if [name] exists,
    otherwise appends the new slice to the ordered list. *)
Definition addNamedSlice (name : string) (ids : gset string)
    (slices : Slices) : result Slices :=
  if bool_decide (name ∈ sliceNames slices) then Throw DuplicateNameError
  else Ok (slices ++ [(name, ids)]).

(** Modelled from the spec: [addIds(name, ids)], the service's
    [addIdsToSlice]: set union on the slice's id set; fails with
    [UnknownSliceError] if [name] does not exist. *)
Definition addIdsToSlice (name : string) (ids : gset string)
    (slices : Slices) : result Slices :=
  if bool_decide (name ∈ sliceNames slices)
  then Ok (updateSlice (λ old, old ∪ ids) name slices)
  else Throw UnknownSliceError.

(** Modelled from the spec: [removeIds(name, ids)], the service's
    [removeIdsFromSlice]: set difference on the slice's id set, so ids
    that are not members change nothing; fails with [UnknownSliceError]
    if [name] does not exist. *)
Definition removeIdsFromSlice (name : string) (ids : gset string)
    (slices : Slices) : result Slices :=
  if bool_decide (name ∈ sliceNames slices)
  then Ok (updateSlice (λ old, old ∖ ids) name slices)
  else Throw UnknownSliceError.

(** Modelled from the spec: [deleteSlice(name)], the service's
    [deleteNamedSlice]: removes the slice; fails with [UnknownSliceError]
    if absent and with [ProtectedSliceError] for the starred slice. *)
Definition deleteNamedSlice (name : string) (slices : Slices) : result Slices :=
  if bool_decide (name ∈ sliceNames slices) then
    if bool_decide (name = STARRED_SLICE_NAME) then Throw ProtectedSliceError
    else Ok (filter (λ s, s.1 ≠ name) slices)
  else Throw UnknownSliceError.

(** Names are unique and the starred slice is the first entry. *)
Definition wf (slices : Slices) : Prop :=
  NoDup (sliceNames slices) ∧ head (sliceNames slices) = Some STARRED_SLICE_NAME.

(** The write operations of the service, and a run of them. *)
Inductive Op :=
  | OpCreate (name : string) (ids : gset string)
  | OpAddIds (name : string) (ids : gset string)
  | OpRemoveIds (name : string) (ids : gset string)
  | OpDelete (name : string).

Definition applyOp (op : Op) (slices : Slices) : result Slices :=
  match op with
  | OpCreate name ids => addNamedSlice name ids slices
  | OpAddIds name ids => addIdsToSlice name ids slices
  | OpRemoveIds name ids => removeIdsFromSlice name ids slices
  | OpDelete name => deleteNamedSlice name slices
  end.

(** A failed operation leaves the slices as they were. *)
Fixpoint runOps (ops : list Op) (slices : Slices) : Slices :=
  match ops with
  | [] => slices
  | op :: rest =>
      match applyOp op slices with
      | Ok slices' => runOps rest slices'
      | Throw _ => runOps rest slices
      end
  end.

End service.
End SliceService.

(** ** The group service *)

Module GroupService.

Section grouping.
(** [NumericFeatureBins] and the label of one feature value: the discrete
    value itself, or the label of the bin a number falls in. Both belong
    to services/group_service. *)
Context {NumericFeatureBins : Type}.
Context (featureLabel : NumericFeatureBins → string → FeatureValue → string).
(** The separator between the per-feature labels of a combination. *)
Context (separator : string).

(** The label of a row's combination: the join of its per-feature labels
    in the order of [features]; none when a feature has no value. *)
Definition comboLabel (bins : NumericFeatureBins) (features : list string)
    (row : IndexedInput) : option string :=
  String.concat separator <$>
    mapM (λ f, featureLabel bins f <$> data row !! f) features.

(** Append [row] to the group of [label], a new last group if there is
    none yet. *)
Fixpoint addToGroup (label : string) (row : IndexedInput)
    (groups : list (string * list IndexedInput))
    : list (string * list IndexedInput) :=
  match groups with
  | [] => [(label, [row])]
  | (l, rows) :: rest =>
      if decide (l = label) then (l, rows ++ [row]) :: rest
      else (l, rows) :: addToGroup label row rest
  end.

(** [row] is in the group labelled [label]. *)
Definition inGroup (groups : list (string * list IndexedInput))
    (label : string) (row : IndexedInput) : Prop :=
  ∃ rows, (label, rows) ∈ groups ∧ row ∈ rows.

(** Modelled from the spec: [groupExamplesByFeatures] of the group service
    is not among the sources. It partitions the rows by the combination
    of their feature labels; a combination without rows has no group. The
    list holds the groups in the order in which they are created; the
    order in which the module walks them is that of [Object.keys]
    ([ownPropertyOrder]). *)
Definition groupExamplesByFeatures (bins : NumericFeatureBins)
    (data : list IndexedInput) (features : list string)
    : list (string * list IndexedInput) :=
  foldl (λ groups row,
           match comboLabel bins features row with
           | Some label => addToGroup label row groups
           | None => groups
           end) [] data.

End grouping.
End GroupService.

(** ** The slice editor module *)

Module SliceModule.
Import SliceService GroupService.

(** A cell of an exported row: the dataset index or a feature value
    ([None] is [undefined]). *)
Inductive SortableTableEntry :=
  | IndexCell (index : Z)
  | ValueCell (v : option FeatureValue).

(** The two icons a slice row can carry besides "add". *)
Inductive RowIcon := ClearIcon | DeleteIcon.

Section module.
Context (STARRED_SLICE_NAME : string).
Context {NumericFeatureBins : Type}.
Context (featureLabel : NumericFeatureBins → string → FeatureValue → string).
Context (separator : string).
(** [appState.currentInputDataKeys], [appState.getIndexById] and
    [sliceService.getSliceDataByName]. *)
Context (currentInputDataKeys : list string).
Context (getIndexById : string → Z).
Context (getSliceDataByName : string → list IndexedInput).

Definition rowData (row : IndexedInput) : list SortableTableEntry :=
  [IndexCell (getIndexById (id row))]
  ++ ((λ c, ValueCell (data row !! c)) <$> currentInputDataKeys).

Definition getArrayData (sliceName : string) : list (list SortableTableEntry) :=
  rowData <$> getSliceDataByName sliceName.

(** [sliceNamePrefix] of [makeSlicesFromAllLabelCombos]. *)
Definition sliceNamePrefix (sliceName : option string) : string :=
  match sliceName with
  | None => ""
  | Some n => n +:+ " "
  end.

(** The name and ids of the slice made for each group, in the order of
    [Object.keys(namedSlices)]; the group service creates the groups in the
    order in which their labels first occur. *)
Definition slicesToCreate (sliceName : option string)
    (sliceByBins : NumericFeatureBins) (data : list IndexedInput)
    (sliceByFeatures : list string) : list (string * gset string) :=
  (λ g, (sliceNamePrefix sliceName +:+ g.1, list_to_set (id <$> g.2)))
  <$> ownPropertyOrder
        (groupExamplesByFeatures featureLabel separator sliceByBins data
           sliceByFeatures).

(** The [forEach] of [makeSlicesFromAllLabelCombos]: a throw ends it. *)
Fixpoint addNamedSlices (new : list (string * gset string))
    (slices : Slices) : result Slices :=
  match new with
  | [] => Ok slices
  | (name, ids) :: rest =>
      slices' ← addNamedSlice name ids slices;
      addNamedSlices rest slices'
  end.

Definition makeSlicesFromAllLabelCombos (sliceName : option string)
    (sliceByBins : NumericFeatureBins) (data : list IndexedInput)
    (sliceByFeatures : list string) (slices : Slices) : result Slices :=
  addNamedSlices (slicesToCreate sliceName sliceByBins data sliceByFeatures) slices.

(** The handlers of [renderSliceRow]. *)
Definition appendClicked (sliceName : string) (selectedIds : list string)
    (slices : Slices) : result Slices :=
  addIdsToSlice sliceName (list_to_set selectedIds) slices.

Definition deleteClicked (sliceName : string) (slices : Slices) : result Slices :=
  deleteNamedSlice STARRED_SLICE_NAME sliceName slices.

Definition clearClicked (sliceName : string) (slices : Slices) : result Slices :=
  let ids := getSliceByName slices sliceName in
  removeIdsFromSlice sliceName ids slices.

(** The starred slice gets the clear icon, every other the delete icon. *)
Definition rowIcon (sliceName : string) : RowIcon :=
  if bool_decide (sliceName = STARRED_SLICE_NAME) then ClearIcon else DeleteIcon.

Definition iconClicked (sliceName : string) (slices : Slices) : result Slices :=
  match rowIcon sliceName with
  | ClearIcon => clearClicked sliceName slices
  | DeleteIcon => deleteClicked sliceName slices
  end.

End module.

(** [numDatapoints] of [renderSliceRow]:
    [getSliceByName(sliceName)?.length ?? 0]. *)
Definition numDatapoints (slices : Slices) (sliceName : string) : nat :=
  size (getSliceByName slices sliceName).

(** [appendButtonEnabled]: some selected id is not in the slice yet. *)
Definition appendButtonEnabled (selectedIds : list string) (slices : Slices)
    (sliceName : string) : bool :=
  0 <? length (filter (λ i, ¬ isInSlice slices sliceName i) selectedIds).

(** [shouldDisableIcons]: it disables the clear icon and the export
    controls. *)
Definition shouldDisableIcons (slices : Slices) (sliceName : string) : bool :=
  numDatapoints slices sliceName <=? 0.

(** The observable fields of the module ([sliceByFeatures], [sliceByBins],
    [sliceName]) with the state of the slice service it writes to: the
    slices and the selected slice name. *)
Record Editor (Bins : Type) := {
  sliceByFeatures : list string;
  sliceByBins : Bins;
  sliceName : option string;
  namedSlices : Slices;
  selectedSliceName : option string;
}.
Arguments sliceByFeatures {Bins} _.
Arguments sliceByBins {Bins} _.
Arguments sliceName {Bins} _.
Arguments namedSlices {Bins} _.
Arguments selectedSliceName {Bins} _.

(** Truthiness of a [string|null]: null and the empty string are falsy. *)
Definition truthy (s : option string) : bool :=
  match s with
  | Some s => bool_decide (s ≠ "")
  | None => false
  end.

(** [lastCreatedSlice]: the last name of the list, [undefined] ([None]) for
    an empty list. *)
Definition lastCreatedSlice (slices : Slices) : option string :=
  last (sliceNames slices).

(** The [forEach] of [makeSlicesFromAllLabelCombos] with what it leaves
    behind: on a throw the slices added before it stay. *)
Fixpoint addNamedSlicesUntil (new : list (string * gset string))
    (slices : Slices) : Slices * option Exn :=
  match new with
  | [] => (slices, None)
  | (name, ids) :: rest =>
      match addNamedSlice name ids slices with
      | Ok slices' => addNamedSlicesUntil rest slices'
      | Throw e => (slices, Some e)
      end
  end.

Section create.
Context {Bins : Type}.
Context (featureLabel : Bins → string → FeatureValue → string).
Context (separator : string).
(** [selectionService.selectedIds] and
    [selectionService.selectedOrAllInputData]. *)
Context (selectedIds : list string).
Context (selectedOrAllInputData : list IndexedInput).

Definition anyCheckboxChecked (e : Editor Bins) : bool :=
  0 <? length (sliceByFeatures e).

Definition createButtonEnabled (e : Editor Bins) : bool :=
  (length selectedIds =? 0) && anyCheckboxChecked e
  || truthy (sliceName e) && (0 <? length selectedIds).

(** [handleClickCreate]: the state it leaves and the exception that ended
    it, if any. A throw of the slice service skips the selection and the
    reset of the form. Modelled from the spec: [selectNamedSlice] of the
    slice service, which is not among the sources, records the name as the
    selected slice and leaves the slices alone. *)
Definition handleClickCreate (e : Editor Bins) : Editor Bins * option Exn :=
  if anyCheckboxChecked e then
    match addNamedSlicesUntil
            (slicesToCreate featureLabel separator (sliceName e) (sliceByBins e)
               selectedOrAllInputData (sliceByFeatures e))
            (namedSlices e) with
    | (slices', Some exn) =>
        ({| sliceByFeatures := sliceByFeatures e; sliceByBins := sliceByBins e;
            sliceName := sliceName e; namedSlices := slices';
            selectedSliceName := selectedSliceName e |}, Some exn)
    | (slices', None) =>
        ({| sliceByFeatures := []; sliceByBins := sliceByBins e;
            sliceName := None; namedSlices := slices';
            selectedSliceName := lastCreatedSlice slices' |}, None)
    end
  else
    match sliceName e with
    | Some createSliceName =>
        match addNamedSlice createSliceName (list_to_set selectedIds)
                (namedSlices e) with
        | Ok slices' =>
            ({| sliceByFeatures := []; sliceByBins := sliceByBins e;
                sliceName := None; namedSlices := slices';
                selectedSliceName := Some createSliceName |}, None)
        | Throw exn => (e, Some exn)
        end
    | None =>
        ({| sliceByFeatures := []; sliceByBins := sliceByBins e;
            sliceName := None; namedSlices := namedSlices e;
            selectedSliceName := None |}, None)
    end.

End create.
End SliceModule.

(** ** Concrete configurations *)

Module Examples.
Import ClassificationModule.

(** A data service that names columns as [model:key] and [model:key:kind]. *)
Definition colName (model predKey : string) (t : option CalculatedColumnType)
    : string :=
  model +:+ ":" +:+ predKey +:+
  match t with
  | None => ""
  | Some PREDICTED_CLASS => ":class"
  | Some CORRECT => ":correct"
  end.

Definition datapoint (i : string) : IndexedInput := {| id := i; data := ∅ |}.

(** One model with one head [probas]; [scores] and [classes] give the score
    vector and the predicted class of each datapoint. *)
Definition services (compare sparse : bool) (model : string)
    (vocab : option (list string))
    (scores : string → option (list float)) (classes : string → option string)
    (pinned selected : option IndexedInput) : Services := {|
  compareExamplesEnabled := compare;
  currentModels := [model];
  getModelSpec := λ _, [("probas", MulticlassPreds None vocab)];
  selectedColorOption := {| name := "none"; scaleRange := None |};
  getColumnName := colName;
  getScores := λ i k, if bool_decide (k = model +:+ ":probas") then scores i else None;
  getLabel := λ i k, if bool_decide (k = model +:+ ":probas:class") then classes i else None;
  pinnedInputData := pinned;
  selectedInputData := selected;
  sparseMode := sparse;
|}.

(** Vocabulary a, b, c and one selected row with scores 0.005, 0.2, 0.795. *)
Definition abc (sparse : bool) : Services :=
  services false sparse "m" (Some ["a"; "b"; "c"])
    (λ _, Some [0.005; 0.2; 0.795]%float) (λ _, Some "c")
    None (Some (datapoint "r1")).

(** The table of [abc] in sparse mode. *)
Definition abcRows : LabelRows :=
  {[ "b" := [ {| value := Some 0.2%float; isTruth := false;
                 isPredicted := false; color := None |} ];
     "c" := [ {| value := Some 0.795%float; isTruth := false;
                 isPredicted := true; color := None |} ] ]}.


(** A selected row whose scores are not there. *)
Definition nullScores (sparse : bool) (vocab : option (list string)) : Services :=
  services false sparse "m" vocab (λ _, None) (λ _, None)
    None (Some (datapoint "r1")).

(** A pinned row scoring 0.3 and a selected row scoring 0.8 on label x. *)
Definition pinnedAndSelected (sparse : bool) : Services :=
  services true sparse "m" (Some ["x"])
    (λ i, if bool_decide (i = "p") then Some [0.3%float] else Some [0.8%float])
    (λ _, Some "x")
    (Some (datapoint "p")) (Some (datapoint "s")).

(** The same two rows in sparse mode, the pinned one scoring 0.005 on
    label x: below the threshold. *)
Definition pinnedBelowThreshold : Services :=
  services true true "m" (Some ["x"])
    (λ i, if bool_decide (i = "p") then Some [0.005%float] else Some [0.8%float])
    (λ _, Some "x")
    (Some (datapoint "p")) (Some (datapoint "s")).

(** The entries of label x for those two rows. *)
Definition pinnedInfo : DisplayInfo :=
  {| value := Some 0.3%float; isTruth := false; isPredicted := true;
     color := None |}.

Definition selectedInfo : DisplayInfo :=
  {| value := Some 0.8%float; isTruth := false; isPredicted := true;
     color := None |}.

(** A data service that names every column [__proto__], and a head whose
    vocabulary holds the label [__proto__]. *)
Definition protoNames : Services := {|
  compareExamplesEnabled := false;
  currentModels := ["m"];
  getModelSpec := λ _, [("probas", MulticlassPreds None (Some ["__proto__"; "a"]))];
  selectedColorOption := {| name := "none"; scaleRange := None |};
  getColumnName := λ _ _ _, "__proto__";
  getScores := λ _ _, Some [0.5; 0.5]%float;
  getLabel := λ _ _, None;
  pinnedInputData := None;
  selectedInputData := Some (datapoint "r1");
  sparseMode := false;
|}.

(** The same selected row under model [sst], then under model [nli]. *)
Definition underModel (model : string) : Services :=
  services false false model (Some ["neg"; "pos"])
    (λ _, Some [0.25; 0.75]%float) (λ _, Some "pos")
    None (Some (datapoint "r1")).

(** Nothing pinned, nothing selected. *)
Definition noSelection : Services :=
  services true false "m" (Some ["a"]) (λ _, None) (λ _, None) None None.

(** Slices: the reserved name and a dataset of three rows, two of which
    have a value for [label]. *)
Definition STARRED : string := "Starred".

Definition labelled (i l : string) : IndexedInput :=
  {| id := i; data := {[ "label" := FString l ]} |}.

Definition dataset : list IndexedInput :=
  [labelled "r1" "pos"; datapoint "r2"; labelled "r3" "neg"; labelled "r4" "pos"].

(** A dataset with a second feature, [split], that r2 lacks. *)
Definition labelledIn (i l s : string) : IndexedInput :=
  {| id := i; data := {[ "label" := FString l; "split" := FString s ]} |}.

Definition splitDataset : list IndexedInput :=
  [labelledIn "r1" "pos" "train"; labelled "r2" "pos";
   labelledIn "r3" "neg" "train"; labelledIn "r4" "pos" "train"].

(** Three rows whose labels are the decimal numbers 10, 2 and 10. *)
Definition numbered : list IndexedInput :=
  [labelled "r1" "10"; labelled "r2" "2"; labelled "r3" "10"].

(** Group labels: a string is its own label; numbers and booleans are not
    used by [dataset]. *)
Definition plainLabel (bins : unit) (feature : string) (v : FeatureValue)
    : string :=
  match v with
  | FString s => s
  | FNumber _ => "number"
  | FBool b => if b then "true" else "false"
  end.

End Examples.

(** * Properties *)

(** ** Comparisons of binary64 numbers *)

Lemma SFcompare_antisym (a b : spec_float) :
  SFcompare b a = CompOpp <$> SFcompare a b.
Proof.
  destruct a as [sa|sa| |sa ma ea], b as [sb|sb| |sb mb eb]; simpl;
    try destruct sa; try destruct sb; try reflexivity;
    change (Pos.compare_cont Eq) with Pos.compare;
    rewrite (Z.compare_antisym eb ea), (Pos.compare_antisym mb ma);
    destruct (eb ?= ea)%Z; simpl; try reflexivity;
    destruct (mb ?= ma)%positive; reflexivity.
Qed.

Lemma is_nan_false (x : float) : is_nan x = false → Prim2SF x ≠ S754_nan.
Proof.
  unfold is_nan. rewrite FloatAxioms.eqb_spec. intros H E.
  rewrite E in H. discriminate.
Qed.

(** On numbers, [x >= y] fails exactly when [x < y]. *)
Lemma leb_negb_ltb (x y : float) :
  is_nan x = false → is_nan y = false → (x <=? y)%float = negb (y <? x)%float.
Proof.
  intros Hx%is_nan_false Hy%is_nan_false.
  rewrite FloatAxioms.leb_spec, FloatAxioms.ltb_spec. unfold SFleb, SFltb.
  rewrite (SFcompare_antisym (Prim2SF x) (Prim2SF y)).
  destruct (Prim2SF x) as [sa|sa| |sa ma ea] eqn:Ex; [| |done|];
  destruct (Prim2SF y) as [sb|sb| |sb mb eb] eqn:Ey; try done;
  match goal with
  | |- context [SFcompare ?a ?b] => destruct (SFcompare a b) as [[]|] eqn:E
  end; try done; simpl in E; repeat case_match; try done.
Qed.

(** ** Property assignment and property order *)

Lemma lookup_setProperty_ne {V} (key k : string) (v : V) (obj : gmap string V) :
  key ≠ k → setProperty key v obj !! k = obj !! k.
Proof.
  intros Hne. unfold setProperty. case_decide; [done|]. by rewrite lookup_insert_ne.
Qed.

Lemma lookup_setProperty_eq {V} (key : string) (v : V) (obj : gmap string V) :
  key ≠ "__proto__" → setProperty key v obj !! key = Some v.
Proof.
  intros Hne. unfold setProperty. rewrite decide_False by done.
  by rewrite lookup_insert_eq.
Qed.

(** No assignment creates the key [__proto__]. *)
Lemma lookup_setProperty_proto {V} (key : string) (v : V) (obj : gmap string V) :
  setProperty key v obj !! "__proto__" = obj !! "__proto__".
Proof.
  unfold setProperty. case_decide; [done|]. by rewrite lookup_insert_ne.
Qed.

Lemma lookup_setProperty_Some {V} (key k : string) (v x : V) (obj : gmap string V) :
  setProperty key v obj !! k = Some x →
  (key = k ∧ x = v ∧ key ≠ "__proto__") ∨ obj !! k = Some x.
Proof.
  unfold setProperty. case_decide as Hp; [by right|].
  destruct (decide (key = k)) as [->|Hne].
  - rewrite lookup_insert_eq. intros [= <-]. by left.
  - rewrite lookup_insert_ne by done. by right.
Qed.

Lemma dom_setProperty {V} (key : string) (v : V) (obj : gmap string V) :
  dom (setProperty key v obj)
  = dom obj ∪ (if decide (key = "__proto__") then ∅ else {[key]}).
Proof.
  unfold setProperty. case_decide.
  - by rewrite (right_id_L ∅ (∪)).
  - rewrite dom_insert_L. apply (comm_L (∪)).
Qed.

Lemma ownPropertyOrder_Permutation {V} (entries : list (string * V)) :
  ownPropertyOrder entries ≡ₚ entries.
Proof.
  unfold ownPropertyOrder. rewrite merge_sort_Permutation.
  induction entries as [|e rest IH]; [done|].
  cbn [omap list_omap]. rewrite filter_cons.
  destruct (arrayIndex e.1) as [n|] eqn:Hn; simpl.
  - by rewrite IH.
  - rewrite <- Permutation_middle. by rewrite IH.
Qed.

(** Keys that are not array indices keep their creation order. *)
Lemma ownPropertyOrder_no_index {V} (entries : list (string * V)) :
  Forall (λ e, arrayIndex e.1 = None) entries → ownPropertyOrder entries = entries.
Proof.
  intros Hall. unfold ownPropertyOrder.
  assert (omap (λ e : string * V, n ← arrayIndex e.1; Some (n, e)) entries = []) as ->.
  { induction Hall as [|e rest He _ IH]; [done|]. cbn. by rewrite He. }
  simpl. induction Hall as [|e rest He _ IH]; [done|].
  rewrite filter_cons, decide_True by done. by rewrite IH.
Qed.

Module ClassificationProps.
Import ClassificationModule Examples.

Section parse.
Context (svc : Services).
Implicit Types (labels : list string) (rows : LabelRows)
  (inputData : list InputData) (d : InputData).

(** *** The loop over the labels *)

Lemma forEachLabel_notin ac cr pck inputData labels i rows l :
  l ∉ labels →
  forEachLabel svc ac cr pck inputData labels i rows !! l = rows !! l.
Proof.
  revert i rows. induction labels as [|label rest IH]; intros i rows Hl; [done|].
  apply not_elem_of_cons in Hl as [Hne Hl]. simpl. rewrite IH by done.
  destruct (rowPreds _ _ _ _ _ _ _); [done|]. by rewrite lookup_setProperty_ne.
Qed.

(** With distinct labels, the entry of the [j]-th label is its row list,
    unless that list is empty. *)
Lemma forEachLabel_nodup ac cr pck inputData labels i rows j l :
  NoDup labels → labels !! j = Some l → l ≠ "__proto__" →
  forEachLabel svc ac cr pck inputData labels i rows !! l =
    match rowPreds svc ac cr pck l (i + j) inputData with
    | [] => rows !! l
    | rp => Some rp
    end.
Proof.
  revert i rows j.
  induction labels as [|label rest IH]; intros i rows j Hnd Hj Hp; [done|].
  apply NoDup_cons in Hnd as [Hnotin Hnd]. destruct j as [|j]; simpl in *.
  - injection Hj as ->. rewrite forEachLabel_notin by done.
    rewrite Nat.add_0_r. destruct (rowPreds _ _ _ _ _ _ _) eqn:E; [done|].
    by rewrite lookup_setProperty_eq.
  - rewrite (IH (S i) _ j) by done. replace (S i + j) with (i + S j) by lia.
    assert (label ≠ l) as Hne.
    { intros ->. apply Hnotin. by eapply list_elem_of_lookup_2. }
    destruct (rowPreds svc ac cr pck l _ _); [|done].
    destruct (rowPreds svc ac cr pck label _ _); [done|].
    by rewrite lookup_setProperty_ne.
Qed.

(** The table never has the key [__proto__]. *)
Lemma forEachLabel_lookup_proto ac cr pck inputData labels i rows :
  forEachLabel svc ac cr pck inputData labels i rows !! "__proto__"
  = rows !! "__proto__".
Proof.
  revert i rows. induction labels as [|label rest IH]; intros i rows; [done|].
  simpl. rewrite IH. destruct (rowPreds _ _ _ _ _ _ _); [done|].
  apply lookup_setProperty_proto.
Qed.

(** Every entry of the result is an earlier entry or the non-empty row
    list of one of the labels. *)
Lemma forEachLabel_lookup_Some ac cr pck inputData labels i rows l r :
  forEachLabel svc ac cr pck inputData labels i rows !! l = Some r →
  rows !! l = Some r ∨
  ∃ j, labels !! j = Some l ∧ r ≠ [] ∧
       r = rowPreds svc ac cr pck l (i + j) inputData.
Proof.
  revert i rows. induction labels as [|label rest IH]; intros i rows H; [by left|].
  simpl in H. apply IH in H as [H|(j & Hj & Hne & ->)].
  - destruct (rowPreds svc ac cr pck label i inputData) eqn:E; [by left|].
    apply lookup_setProperty_Some in H as [(-> & -> & _)|H]; [|by left].
    right. exists 0. rewrite Nat.add_0_r, E. done.
  - right. exists (S j). replace (i + S j) with (S i + j) by lia. done.
Qed.


(** *** One datapoint's contribution *)

(** With sparse mode off every datapoint contributes one entry. *)
Lemma rowPred_dense_is_Some ac cr pck label i d :
  sparseMode svc = false → is_Some (rowPred svc ac cr pck label i d).
Proof.
  intros Hs. unfold rowPred. rewrite Hs. simpl. destruct (predScores d); eauto.
Qed.

Lemma rowPreds_dense_length ac cr pck label i inputData :
  sparseMode svc = false →
  length (rowPreds svc ac cr pck label i inputData) = length inputData.
Proof.
  intros Hs. unfold rowPreds. induction inputData as [|d rest IH]; [done|].
  destruct (rowPred_dense_is_Some ac cr pck label i d Hs) as [x Hx].
  simpl. rewrite Hx. simpl. f_equal. exact IH.
Qed.

Lemma rowPreds_dense_lookup ac cr pck label i inputData k d :
  sparseMode svc = false → inputData !! k = Some d →
  rowPreds svc ac cr pck label i inputData !! k = rowPred svc ac cr pck label i d.
Proof.
  intros Hs. unfold rowPreds. revert k.
  induction inputData as [|d' rest IH]; intros k Hk; [done|].
  destruct (rowPred_dense_is_Some ac cr pck label i d' Hs) as [x Hx].
  simpl. rewrite Hx. destruct k as [|k]; simpl in *.
  - injection Hk as <-. done.
  - by apply IH.
Qed.



Lemma forEachLabel_all_empty ac cr pck inputData labels i rows :
  (∀ label j, rowPreds svc ac cr pck label j inputData = []) →
  forEachLabel svc ac cr pck inputData labels i rows = rows.
Proof.
  intros Hemp. revert i. induction labels as [|label rest IH]; intros i; [done|].
  simpl. rewrite Hemp. apply IH.
Qed.

(** *** One prediction head *)

Lemma parseHead_Ok model inputs output predKey parent vocab key rows :
  getField output predKey = Some (MulticlassPreds parent vocab) →
  parseHead svc model inputs output predKey = Ok (key, rows) →
  let predClassKey := getColumnName svc model predKey (Some PREDICTED_CLASS) in
  let predCorrectKey := getColumnName svc model predKey (Some CORRECT) in
  let inputData := inputDataOf svc key predClassKey parent inputs in
  key = getColumnName svc model predKey None ∧
  ∃ labels colorRange,
    labelsOf vocab inputData = Ok labels ∧
    rows = forEachLabel svc
             (includesName predClassKey predCorrectKey parent
                (name (selectedColorOption svc)))
             colorRange predCorrectKey inputData labels 0 ∅.
Proof.
  intros Hf. unfold parseHead. rewrite Hf. simpl.
  destruct (labelsOf vocab _) as [labels|] eqn:Hl; simpl; [|done].
  destruct (colorRangeOf _ _) as [r|]; simpl; [|done].
  intros [= <- <-]. eauto.
Qed.

Lemma parseHead_declared model inputs output predKey parent labels :
  getField output predKey = Some (MulticlassPreds parent (Some labels)) →
  let key := getColumnName svc model predKey None in
  let predClassKey := getColumnName svc model predKey (Some PREDICTED_CLASS) in
  let predCorrectKey := getColumnName svc model predKey (Some CORRECT) in
  let applyColor :=
    includesName predClassKey predCorrectKey parent (name (selectedColorOption svc)) in
  parseHead svc model inputs output predKey =
    (colorRange ← colorRangeOf svc applyColor;
     Ok (key, forEachLabel svc applyColor colorRange predCorrectKey
                (inputDataOf svc key predClassKey parent inputs) labels 0 ∅)).
Proof. intros Hf. unfold parseHead. by rewrite Hf. Qed.

(** A head without a vocabulary whose first datapoint has no scores
    makes [parseHead] throw. *)
Lemma parseHead_no_vocab_null_scores model input rest output predKey parent :
  getField output predKey = Some (MulticlassPreds parent None) →
  getScores svc (id input) (getColumnName svc model predKey None) = None →
  parseHead svc model (input :: rest) output predKey = Throw TypeError.
Proof. intros Hf Hs. unfold parseHead. rewrite Hf. simpl. by rewrite Hs. Qed.

(** *** All heads of a model *)

Lemma parseHeads_lookup model inputs output keys acc lp k rows :
  parseHeads svc model inputs output keys acc = Ok lp →
  lp !! k = Some rows →
  acc !! k = Some rows ∨
  ∃ predKey, predKey ∈ keys ∧ parseHead svc model inputs output predKey = Ok (k, rows).
Proof.
  revert acc. induction keys as [|predKey rest IH]; intros acc H Hk; simpl in H.
  - injection H as ->. by left.
  - destruct (parseHead svc model inputs output predKey) as [[key r]|] eqn:Hh;
      simpl in H; [|done].
    destruct (IH _ H Hk) as [Hacc|(pk & Hin & Hpk)].
    + apply lookup_setProperty_Some in Hacc as [(-> & -> & _)|Hacc]; [|by left].
      right. exists predKey. split; [left|done].
    + right. exists pk. split; [by right|done].
Qed.

Lemma parseResult_lookup model inputs lp k rows :
  parseResult svc model inputs = Ok lp → lp !! k = Some rows →
  ∃ predKey, predKey ∈ findSpecKeys (getModelSpec svc model) ∧
    parseHead svc model inputs (getModelSpec svc model) predKey = Ok (k, rows).
Proof.
  intros H Hk. destruct (parseHeads_lookup _ _ _ _ _ _ _ _ H Hk) as [Hx|Hx]; [done|].
  exact Hx.
Qed.

(** With every vocabulary declared and a colour scale that has a range,
    [parseResult] returns a table. *)
Lemma parseHeads_declared_vocab model inputs output keys acc :
  (∀ predKey, predKey ∈ keys →
     ∃ parent labels, getField output predKey = Some (MulticlassPreds parent (Some labels))) →
  is_Some (scaleRange (selectedColorOption svc)) →
  ∃ lp, parseHeads svc model inputs output keys acc = Ok lp.
Proof.
  intros Hv [r Hr]. revert acc. induction keys as [|predKey rest IH]; intros acc; simpl.
  - eauto.
  - destruct (Hv predKey) as (parent & labels & Hf); [left|].
    unfold parseHead, colorRangeOf. rewrite Hf, Hr. simpl.
    destruct (includesName _ _ _ _); simpl; apply IH; intros; apply Hv; by right.
Qed.

Lemma parseResult_declared_vocab model inputs :
  (∀ predKey, predKey ∈ findSpecKeys (getModelSpec svc model) →
     ∃ parent labels,
       getField (getModelSpec svc model) predKey
       = Some (MulticlassPreds parent (Some labels))) →
  is_Some (scaleRange (selectedColorOption svc)) →
  ∃ lp, parseResult svc model inputs = Ok lp.
Proof. apply parseHeads_declared_vocab. Qed.

(** *** The reactive update *)

Lemma assignModels_union models inputs lp :
  (assignModels svc models inputs lp).1 = (assignModels svc models inputs ∅).1 ∪ lp ∧
  (assignModels svc models inputs lp).2 = (assignModels svc models inputs ∅).2.
Proof.
  revert lp. induction models as [|model rest IH]; intros lp; simpl.
  - by rewrite (left_id_L ∅ (∪)).
  - destruct (parseResult svc model inputs) as [new|e]; simpl.
    + destruct (IH (new ∪ lp)) as [-> ->]. destruct (IH (new ∪ ∅)) as [-> ->].
      split; [|done]. by rewrite (right_id_L ∅ (∪)), (assoc_L (∪)).
    + by rewrite (left_id_L ∅ (∪)).
Qed.

Lemma activeLabeledPreds_lookup (lp : LabeledPredictions) k rows :
  activeLabeledPreds svc lp !! k = Some rows ↔
  lp !! k = Some rows ∧
  ∃ model, model ∈ currentModels svc ∧ startsWith k model = true.
Proof.
  unfold activeLabeledPreds. rewrite map_lookup_filter_Some. simpl.
  rewrite existsb_exists. setoid_rewrite <- list_elem_of_In. done.
Qed.

(** With sparse mode off and two datapoints, every entry of a head's
    table holds two values, so every row of the rendered table carries
    the delta. *)
Lemma dense_rows_have_two_values model pinned selected output predKey
    parent vocab key rows label r :
  sparseMode svc = false →
  getField output predKey = Some (MulticlassPreds parent vocab) →
  parseHead svc model [pinned; selected] output predKey = Ok (key, rows) →
  rows !! label = Some r →
  ∃ p s, r = [p; s].
Proof.
  intros Hs Hf Hh Hr.
  destruct (parseHead_Ok _ _ _ _ _ _ _ _ Hf Hh) as (_ & labels & cr & _ & ->).
  apply forEachLabel_lookup_Some in Hr as [Hr|(j & _ & _ & ->)]; [done|].
  match goal with
  | |- context [rowPreds ?s ?a ?c ?p ?l ?i ?d] =>
      pose proof (rowPreds_dense_length a c p l i d Hs) as Hlen;
      destruct (rowPreds s a c p l i d) as [|x [|y [|z tl]]]
  end; try done. eauto.
Qed.

(** The table of a head has no entry under [__proto__], whatever the
    vocabulary and the scores: the assignment sets the prototype of the
    table and creates no property. *)
Lemma parseHead_no_proto_entry model inputs output predKey key rows :
  parseHead svc model inputs output predKey = Ok (key, rows) →
  rows !! "__proto__" = None.
Proof.
  unfold parseHead. destruct (match getField output predKey with
                              | Some (MulticlassPreds parent vocab) => Ok (parent, vocab)
                              | Some OtherField => Ok (None, None)
                              | None => Throw TypeError
                              end) as [[parent vocab]|]; simpl; [|done].
  destruct (labelsOf _ _) as [labels|]; simpl; [|done].
  destruct (colorRangeOf _ _) as [cr|]; simpl; [|done].
  intros [= <- <-]. by rewrite forEachLabel_lookup_proto.
Qed.

End parse.

(** C4. In sparse mode a datapoint with a score vector contributes no row
    to a label exactly when its score for that label is not at least the
    threshold 0.01, that is, for a score that is a number, exactly when the
    score is below 0.01. For one input row and a vocabulary of distinct
    labels, the table then has an entry for a label other than [__proto__]
    exactly when the score of that label is not below the threshold, and
    the entry holds that score. (Under the label [__proto__] the assignment
    of the source stores no entry: [parseHead_no_proto_entry].) *)
Theorem sparse_mode_threshold svc (Hsparse : sparseMode svc = true) :
  (∀ ac cr pck label i d scores v,
     predScores d = Some scores → scores !! i = Some v →
     (rowPred svc ac cr pck label i d = None
      ↔ (SPARSE_MODE_THRESHOLD <=? v)%float = false) ∧
     (is_nan v = false →
      (rowPred svc ac cr pck label i d = None
       ↔ (v <? SPARSE_MODE_THRESHOLD)%float = true))) ∧
  (∀ model input output predKey parent labels key rows scores,
     getField output predKey = Some (MulticlassPreds parent (Some labels)) →
     NoDup labels →
     getScores svc (id input) (getColumnName svc model predKey None) = Some scores →
     parseHead svc model [input] output predKey = Ok (key, rows) →
     ∀ i label v, labels !! i = Some label → label ≠ "__proto__" →
       scores !! i = Some v → is_nan v = false →
       (rows !! label = None ↔ (v <? SPARSE_MODE_THRESHOLD)%float = true) ∧
       ((v <? SPARSE_MODE_THRESHOLD)%float = false →
        ∃ info, rows !! label = Some [info] ∧ value info = Some v)).
Proof.
  assert (∀ ac cr pck label i d scores v,
     predScores d = Some scores → scores !! i = Some v →
     (rowPred svc ac cr pck label i d = None
      ↔ (SPARSE_MODE_THRESHOLD <=? v)%float = false) ∧
     (is_nan v = false →
      (rowPred svc ac cr pck label i d = None
       ↔ (v <? SPARSE_MODE_THRESHOLD)%float = true))) as Hrow.
  { intros ac cr pck label i d scores v Hd Hv.
    assert (rowPred svc ac cr pck label i d = None
            ↔ (SPARSE_MODE_THRESHOLD <=? v)%float = false) as Hiff.
    { unfold rowPred. rewrite Hd, Hv, Hsparse. simpl.
      destruct (SPARSE_MODE_THRESHOLD <=? v)%float; split; done. }
    split; [done|]. intros Hnan. rewrite Hiff.
    rewrite (leb_negb_ltb SPARSE_MODE_THRESHOLD v) by done.
    destruct (v <? SPARSE_MODE_THRESHOLD)%float; split; done. }
  split; [exact Hrow|].
  intros model input output predKey parent labels key rows scores Hf Hnd Hs Hh
    i label v Hl Hp Hv Hnan.
  destruct (parseHead_Ok _ _ _ _ _ _ _ _ _ Hf Hh) as (Hkey & labels' & cr & Hlab & ->).
  simpl in Hlab. injection Hlab as <-.
  rewrite (forEachLabel_nodup _ _ _ _ _ _ 0 _ i label Hnd Hl Hp).
  rewrite lookup_empty. simpl. unfold rowPreds. simpl.
  match goal with
  | |- context [rowPred svc ?a ?c ?p label i ?d] =>
      destruct (Hrow a c p label i d scores v) as [_ Hlt];
      [by simpl; rewrite Hkey| done |];
      specialize (Hlt Hnan);
      destruct (rowPred svc a c p label i d) as [info|] eqn:Hrp
  end.
  - assert (value info = Some v) as Hval.
    { unfold rowPred in Hrp. simpl in Hrp. rewrite Hkey, Hs, Hv, Hsparse in Hrp.
      simpl in Hrp. by destruct (SPARSE_MODE_THRESHOLD <=? v)%float; simplify_eq. }
    split.
    + rewrite <- Hlt. split; done.
    + intros _. eauto.
  - split.
    + rewrite <- Hlt. split; done.
    + intros Hge. destruct Hlt as [Hlt _]. rewrite Hlt in Hge; done.
Qed.

(** The example of C4: vocabulary a, b, c, one row with scores 0.005, 0.2
    and 0.795, sparse mode on: rows for b and c only. *)
Lemma abc_sparse_rows :
  parseResult (abc true) "m" [datapoint "r1"] = Ok {[ "m:probas" := abcRows ]}
  ∧ abcRows !! "a" = None
  ∧ (∃ info, abcRows !! "b" = Some [info] ∧ value info = Some 0.2%float)
  ∧ (∃ info, abcRows !! "c" = Some [info] ∧ value info = Some 0.795%float).
Proof.
  split; [vm_compute; reflexivity|].
  destruct (sparse_mode_threshold (abc true) eq_refl) as [_ Htab].
  assert (NoDup ["a"; "b"; "c"]) as Hnd by compute_done.
  assert (parseHead (abc true) "m" [datapoint "r1"]
            [("probas", MulticlassPreds None (Some ["a"; "b"; "c"]))] "probas"
          = Ok ("m:probas", abcRows)) as Hrows by (vm_compute; reflexivity).
  pose proof (Htab "m" (datapoint "r1")
                [("probas", MulticlassPreds None (Some ["a"; "b"; "c"]))]
                "probas" None ["a"; "b"; "c"]
                "m:probas" abcRows [0.005; 0.2; 0.795]%float
                eq_refl Hnd eq_refl Hrows) as H.
  assert ("a" ≠ "__proto__") as Ha by discriminate.
  assert ("b" ≠ "__proto__") as Hb by discriminate.
  assert ("c" ≠ "__proto__") as Hc by discriminate.
  split; [|split].
  - apply (H 0 "a" 0.005%float eq_refl Ha eq_refl eq_refl). reflexivity.
  - apply (H 1 "b" 0.2%float eq_refl Hb eq_refl eq_refl). reflexivity.
  - apply (H 2 "c" 0.795%float eq_refl Hc eq_refl eq_refl). reflexivity.
Defined.



(** C1. A head that declares no vocabulary and a first input row without a
    score vector: [parseResult] throws a [TypeError], and so does the
    update that calls it. *)
Theorem parseResult_throws_without_vocab_and_scores :
  parseResult (nullScores false None) "m" [datapoint "r1"] = Throw TypeError
  ∧ parseResult (nullScores true None) "m" [datapoint "r1"] = Throw TypeError
  ∧ updateSelection (nullScores false None) ∅ = (∅, Some TypeError).
Proof. repeat split; vm_compute; reflexivity. Qed.

(** Without a vocabulary the labels are the positions of the first row's
    scores. *)
Lemma parseResult_positional_labels :
  parseResult
    (services false false "m" None (λ _, Some [0.25; 0.75]%float) (λ _, Some "1")
       None (Some (datapoint "r1"))) "m" [datapoint "r1"]
  = Ok {[ "m:probas" :=
            {[ "0" := [ {| value := Some 0.25%float; isTruth := false;
                           isPredicted := false; color := None |} ];
               "1" := [ {| value := Some 0.75%float; isTruth := false;
                           isPredicted := true; color := None |} ] ]} ]}.
Proof. vm_compute. reflexivity. Qed.

(** The entry of a label in the table of two datapoints: what the two
    datapoints contribute at a position of the label. *)
Lemma parseHead_two_inputs svc model pinned selected output predKey parent vocab
    key rows label values :
  getField output predKey = Some (MulticlassPreds parent vocab) →
  parseHead svc model [pinned; selected] output predKey = Ok (key, rows) →
  rows !! label = Some values →
  ∃ j ac cr pck dp ds,
    match vocab with
    | Some labels => labels !! j = Some label
    | None => label = pretty j
    end
    ∧ predScores dp = getScores svc (id pinned) key
    ∧ predScores ds = getScores svc (id selected) key
    ∧ values ≠ []
    ∧ values = omap (rowPred svc ac cr pck label j) [dp; ds].
Proof.
  intros Hf Hh Hr.
  destruct (parseHead_Ok svc _ _ _ _ _ _ _ _ Hf Hh) as (Hkey & labels & cr & Hlab & ->).
  apply forEachLabel_lookup_Some in Hr as [Hr|(j & Hj & Hne & ->)]; [done|].
  simpl in Hne |- *.
  eexists j, _, cr, _, _, _. split; [|split; [|split; [|split; [exact Hne|reflexivity]]]].
  - destruct vocab as [labels'|]; simpl in Hlab.
    + by injection Hlab as <-.
    + destruct (getScores svc (id pinned) key) as [scores|]; [|done].
      injection Hlab as <-. rewrite list_lookup_fmap in Hj.
      destruct (seq 0 (length scores) !! j) as [k|] eqn:Hk; [|done].
      injection Hj as <-. by apply lookup_seq in Hk as [-> _].
  - done.
  - done.
Qed.

(** C6, as stated, fails: comparing, with a pinned row scoring 0.005 and a
    selected row scoring 0.8 on label x and sparse mode on, the entry of x
    holds the selected value alone, and the row rendered for x has no
    delta, whatever the order of the entries. *)
Lemma delta_missing_in_sparse_mode :
  let svc := pinnedBelowThreshold in
  compareExamplesEnabled svc = true
  ∧ pinnedInputData svc = Some (datapoint "p")
  ∧ selectedInputData svc = Some (datapoint "s")
  ∧ getScores svc "p" "m:probas" = Some [0.005%float]
  ∧ getScores svc "s" "m:probas" = Some [0.8%float]
  ∧ updateSelection svc ∅ = ({[ "m:probas" := {[ "x" := [selectedInfo] ]} ]}, None)
  ∧ ∀ entries, entries ≡ₚ map_to_list ({[ "x" := [selectedInfo] ]} : LabelRows) →
      renderFeatureTable svc false entries
      = Ok ([ClassColumn; Titled "Score - Pinned"],
            [[Label "x"; ScoreBar selectedInfo false]]).
Proof.
  intros svc. repeat (split; [vm_compute; reflexivity|]).
  intros entries Hperm. rewrite map_to_list_singleton in Hperm.
  apply Permutation_singleton_r in Hperm as ->. vm_compute. reflexivity.
Qed.

(** C6, amended. When comparing with a pinned and a selected datapoint, a
    head's rendered table has one row per label of the head's table. A
    label whose entry holds both values gets the row of its label, the two
    score bars and the delta, the absolute difference of the pinned and the
    selected value; the two values are the scores of the two datapoints at
    a position of the label, 0 standing for a datapoint without scores. A
    label whose entry holds one value, which happens in sparse mode only,
    gets a row without a delta, and no other row carries a delta. With
    sparse mode off every entry holds both values; in sparse mode an entry
    holds both only if both datapoints have scores and both values reach
    the threshold. *)
Theorem delta_in_rendered_table svc model output predKey parent vocab key rows
    entries hasTruth columnNames tableData pinned selected :
  compareExamplesEnabled svc = true →
  pinnedInputData svc = Some pinned →
  selectedInputData svc = Some selected →
  getField output predKey = Some (MulticlassPreds parent vocab) →
  parseHead svc model (selectionData svc) output predKey = Ok (key, rows) →
  entries ≡ₚ map_to_list rows →
  renderFeatureTable svc hasTruth entries = Ok (columnNames, tableData) →
  let scoreOf (input : IndexedInput) (j : nat) : option float :=
    match getScores svc (id input) key with
    | Some scores => scores !! j
    | None => Some 0%float
    end in
  (∀ label values, rows !! label = Some values →
     (∃ p s j,
        values = [p; s]
        ∧ match vocab with
          | Some labels => labels !! j = Some label
          | None => label = pretty j
          end
        ∧ value p = scoreOf pinned j ∧ value s = scoreOf selected j
        ∧ [Label label; ScoreBar p hasTruth; ScoreBar s hasTruth;
           Delta (abs (toNumber (value p) - toNumber (value s)))] ∈ tableData)
     ∨ (∃ v, values = [v] ∧ sparseMode svc = true
             ∧ [Label label; ScoreBar v hasTruth] ∈ tableData))
  ∧ (∀ row, row ∈ tableData →
       ∃ label values, rows !! label = Some values
         ∧ row !! 0 = Some (Label label)
         ∧ ((∃ x, Delta x ∈ row) → length values = 2))
  ∧ (sparseMode svc = false →
       ∀ label values, rows !! label = Some values → length values = 2)
  ∧ (sparseMode svc = true →
       ∀ label p s, rows !! label = Some [p; s] →
         is_Some (getScores svc (id pinned) key)
         ∧ is_Some (getScores svc (id selected) key)
         ∧ (SPARSE_MODE_THRESHOLD <=? toNumber (value p))%float = true
         ∧ (SPARSE_MODE_THRESHOLD <=? toNumber (value s))%float = true).
Proof.
  intros Hc Hp Hsel Hf Hh Hperm Hrender scoreOf.
  assert (selectionData svc = [pinned; selected]) as Hdata.
  { unfold selectionData. by rewrite Hc, Hp, Hsel. }
  rewrite Hdata in Hh.
  assert (tableData = (λ e, tableRow hasTruth e.1 e.2) <$> entries) as ->.
  { unfold renderFeatureTable in Hrender.
    destruct (columnNamesOf _ _); simpl in Hrender; [|done]. by injection Hrender. }
  assert (∀ label values, rows !! label = Some values →
            tableRow hasTruth label values
            ∈ (λ e, tableRow hasTruth e.1 e.2) <$> entries) as Hrow.
  { intros label values Hr. apply list_elem_of_fmap. exists (label, values).
    split; [done|]. rewrite Hperm. by apply elem_of_map_to_list. }
  split; [|split; [|split]].
  - intros label values Hr. specialize (Hrow label values Hr).
    destruct (parseHead_two_inputs _ _ _ _ _ _ _ _ _ _ _ _ Hf Hh Hr)
      as (j & ac & cr & pck & dp & ds & Hj & Hdp & Hds & Hne & Hval).
    cbn in Hval.
    destruct (rowPred svc ac cr pck label j dp) as [p|] eqn:Ep;
      destruct (rowPred svc ac cr pck label j ds) as [s|] eqn:Es;
      cbn in Hval; subst values; try done.
    + left. exists p, s, j. split; [done|]. split; [done|].
      split; [|split; [|exact Hrow]].
      * unfold rowPred in Ep. unfold scoreOf. rewrite Hdp in Ep.
        destruct (getScores svc (id pinned) key) as [sc|].
        -- by destruct (_ || _); simplify_eq.
        -- by destruct (negb _); simplify_eq.
      * unfold rowPred in Es. unfold scoreOf. rewrite Hds in Es.
        destruct (getScores svc (id selected) key) as [sc|].
        -- by destruct (_ || _); simplify_eq.
        -- by destruct (negb _); simplify_eq.
    + right. exists p. split; [done|]. split; [|exact Hrow].
      destruct (sparseMode svc) eqn:Hs; [done|].
      destruct (rowPred_dense_is_Some svc ac cr pck label j ds Hs) as [x Hx]. congruence.
    + right. exists s. split; [done|]. split; [|exact Hrow].
      destruct (sparseMode svc) eqn:Hs; [done|].
      destruct (rowPred_dense_is_Some svc ac cr pck label j dp Hs) as [x Hx]. congruence.
  - intros row Hin. apply list_elem_of_fmap in Hin as ([label values] & -> & He).
    rewrite Hperm in He. apply elem_of_map_to_list in He. simpl.
    exists label, values. split; [done|]. split; [done|].
    intros [x Hx]. unfold tableRow in Hx.
    apply elem_of_cons in Hx as [Hx|Hx]; [done|].
    apply elem_of_app in Hx as [Hx|Hx].
    + apply list_elem_of_fmap in Hx as (? & ? & _). done.
    + destruct values as [|a [|b [|c l]]]; try (by apply elem_of_nil in Hx). done.
  - intros Hs label values Hr.
    destruct (dense_rows_have_two_values svc _ _ _ _ _ _ _ _ _ _ _ Hs Hf Hh Hr)
      as (p & s & ->). done.
  - intros Hs label p s Hr.
    destruct (parseHead_two_inputs _ _ _ _ _ _ _ _ _ _ _ _ Hf Hh Hr)
      as (j & ac & cr & pck & dp & ds & Hj & Hdp & Hds & Hne & Hval).
    cbn in Hval.
    destruct (rowPred svc ac cr pck label j dp) as [p'|] eqn:Ep;
      destruct (rowPred svc ac cr pck label j ds) as [s'|] eqn:Es;
      cbn in Hval; try done.
    injection Hval as -> ->.
    unfold rowPred in Ep, Es. rewrite Hs, Hdp in Ep. rewrite Hs, Hds in Es.
    simpl in Ep, Es.
    destruct (getScores svc (id pinned) key) as [scp|]; [|done].
    destruct (getScores svc (id selected) key) as [scs|]; [|done].
    destruct (SPARSE_MODE_THRESHOLD <=? toNumber (scp !! j))%float eqn:Tp; [|done].
    destruct (SPARSE_MODE_THRESHOLD <=? toNumber (scs !! j))%float eqn:Ts; [|done].
    simplify_eq. simpl. eauto.
Qed.

(** The example of C6: scores 0.3 (pinned) and 0.8 (selected) for label x
    give the delta 0.5. *)
Lemma x_delta_rendered_example :
  updateSelection (pinnedAndSelected false) ∅
    = ({[ "m:probas" := {[ "x" := [pinnedInfo; selectedInfo] ]} ]}, None)
  ∧ renderFeatureTable (pinnedAndSelected false) false
      [("x", [pinnedInfo; selectedInfo])]
    = Ok ([ClassColumn; Titled "Score - Pinned"; Titled "Score - Selected";
           Titled "Δ(Pinned, Selected)"],
          [[Label "x"; ScoreBar pinnedInfo false; ScoreBar selectedInfo false;
            Delta 0.5%float]])
  ∧ [Label "x"; ScoreBar pinnedInfo false; ScoreBar selectedInfo false;
     Delta 0.5%float]
    ∈ [[Label "x"; ScoreBar pinnedInfo false; ScoreBar selectedInfo false;
        Delta 0.5%float]].
Proof.
  split; [vm_compute; reflexivity|]. split; [vm_compute; reflexivity|].
  assert (parseHead (pinnedAndSelected false) "m"
            (selectionData (pinnedAndSelected false))
            [("probas", MulticlassPreds None (Some ["x"]))] "probas"
          = Ok ("m:probas", {[ "x" := [pinnedInfo; selectedInfo] ]})) as Hh
    by (vm_compute; reflexivity).
  assert ([("x", [pinnedInfo; selectedInfo])]
          ≡ₚ map_to_list ({[ "x" := [pinnedInfo; selectedInfo] ]} : LabelRows))
    as Hperm by (by rewrite map_to_list_singleton).
  destruct (delta_in_rendered_table (pinnedAndSelected false) "m"
              [("probas", MulticlassPreds None (Some ["x"]))] "probas" None
              (Some ["x"]) "m:probas" {[ "x" := [pinnedInfo; selectedInfo] ]}
              [("x", [pinnedInfo; selectedInfo])] false
              [ClassColumn; Titled "Score - Pinned"; Titled "Score - Selected";
               Titled "Δ(Pinned, Selected)"]
              [[Label "x"; ScoreBar pinnedInfo false; ScoreBar selectedInfo false;
                Delta 0.5%float]]
              (datapoint "p") (datapoint "s")
              eq_refl eq_refl eq_refl eq_refl Hh Hperm eq_refl) as (Hrows & _).
  destruct (Hrows "x" [pinnedInfo; selectedInfo] eq_refl)
    as [(p & s & j & Hv & _ & _ & _ & Hin)|(v & Hv & _)]; [|discriminate Hv].
  injection Hv as <- <-. exact Hin.
Defined.

(** C10. With no pinned datapoint to show (not comparing, or nothing
    pinned) and no selected datapoint, [updateSelection] sets the table to
    the empty one and completes; nothing is displayed. *)
Theorem updateSelection_no_datapoint svc (lp : LabeledPredictions) :
  compareExamplesEnabled svc = false ∨ pinnedInputData svc = None →
  selectedInputData svc = None →
  updateSelection svc lp = (∅, None)
  ∧ activeLabeledPreds svc (updateSelection svc lp).1 = ∅.
Proof.
  intros Hp Hsel.
  assert (updateSelection svc lp = (∅, None)) as ->.
  { unfold updateSelection, selectionData. rewrite Hsel.
    destruct Hp as [-> | ->]; [done|]. by destruct (compareExamplesEnabled svc). }
  split; [done|]. unfold activeLabeledPreds. simpl. apply map_filter_empty.
Qed.

Lemma no_selection_example :
  updateSelection noSelection {[ "m:probas" := abcRows ]} = (∅, None)
  ∧ activeLabeledPreds noSelection
      (updateSelection noSelection {[ "m:probas" := abcRows ]}).1 = ∅.
Proof.
  apply (updateSelection_no_datapoint noSelection).
  - right. reflexivity.
  - reflexivity.
Defined.




End ClassificationProps.

Module SliceProps.
Import SliceService GroupService SliceModule Examples.

(** ** The slice service *)

Section service.
Context (STARRED_SLICE_NAME : string).
Implicit Types (slices : Slices) (ids : gset string) (name : string).

Lemma sliceNames_updateSlice f name slices :
  sliceNames (updateSlice f name slices) = sliceNames slices.
Proof.
  unfold sliceNames, updateSlice. rewrite <- list_fmap_compose.
  apply list_fmap_ext. intros _ [n i] _. simpl. by case_decide.
Qed.

Lemma lookupSlice_updateSlice f name slices n :
  lookupSlice (updateSlice f name slices) n =
    if decide (n = name) then f <$> lookupSlice slices n else lookupSlice slices n.
Proof.
  induction slices as [|[m i] rest IH]; simpl; [by case_decide|].
  destruct (decide (m = name)) as [->|Hm]; simpl.
  - destruct (decide (name = n)) as [->|Hn].
    + by rewrite decide_True.
    + rewrite IH. done.
  - destruct (decide (m = n)) as [->|Hn].
    + by rewrite decide_False.
    + apply IH.
Qed.

Lemma lookupSlice_is_Some slices name :
  name ∈ sliceNames slices ↔ is_Some (lookupSlice slices name).
Proof.
  unfold sliceNames. induction slices as [|[m i] rest IH]; simpl.
  - split; [by intros ?%elem_of_nil|by intros [? ?]].
  - rewrite elem_of_cons. destruct (decide (m = name)) as [->|Hm].
    + split; eauto.
    + rewrite <- IH. split; [intros [?|?]; [congruence|done]|by right].
Qed.

(** Every write operation keeps the names unique and the starred slice
    first. *)
Lemma sliceNames_filter_NoDup name slices :
  NoDup (sliceNames slices) →
  NoDup (sliceNames (filter (λ s, s.1 ≠ name) slices)).
Proof.
  unfold sliceNames. induction slices as [|[m i] rest IH]; [done|].
  simpl. intros [Hm Hnd]%NoDup_cons. rewrite filter_cons. simpl.
  case_decide; [|by apply IH]. simpl. apply NoDup_cons. split; [|by apply IH].
  intros Hin. apply Hm. apply list_elem_of_fmap in Hin as ([m' i'] & -> & Hin).
  apply list_elem_of_filter in Hin as [_ Hin].
  apply list_elem_of_fmap. by exists (m', i').
Qed.

(** Every write operation keeps the names unique and the starred slice
    first. *)
Lemma applyOp_wf op slices slices' :
  wf STARRED_SLICE_NAME slices →
  applyOp STARRED_SLICE_NAME op slices = Ok slices' →
  wf STARRED_SLICE_NAME slices'.
Proof.
  intros [Hnd Hhd]. destruct op as [name ids|name ids|name ids|name]; simpl.
  - unfold addNamedSlice. case_bool_decide as Hin; [done|]. intros [= <-].
    unfold wf, sliceNames in *. rewrite fmap_app. simpl. split.
    + apply NoDup_app. split; [done|]. split; [|apply NoDup_singleton].
      intros x Hx ->%list_elem_of_singleton. done.
    + destruct slices; [done|]. done.
  - unfold addIdsToSlice. case_bool_decide; [|done]. intros [= <-].
    unfold wf. by rewrite sliceNames_updateSlice.
  - unfold removeIdsFromSlice. case_bool_decide; [|done]. intros [= <-].
    unfold wf. by rewrite sliceNames_updateSlice.
  - unfold deleteNamedSlice. case_bool_decide; [|done].
    case_bool_decide as Hst; [done|]. intros [= <-].
    split; [by apply sliceNames_filter_NoDup|].
    unfold sliceNames in *.
    destruct slices as [|[m i] rest]; [done|]. simpl in Hhd. injection Hhd as ->.
    rewrite filter_cons. simpl. rewrite decide_True; [done|]. congruence.
Qed.

Lemma runOps_wf ops slices :
  wf STARRED_SLICE_NAME slices → wf STARRED_SLICE_NAME (runOps STARRED_SLICE_NAME ops slices).
Proof.
  revert slices. induction ops as [|op rest IH]; intros slices Hwf; [done|].
  simpl. destruct (applyOp STARRED_SLICE_NAME op slices) as [slices'|] eqn:Hop.
  - apply IH. by eapply applyOp_wf.
  - by apply IH.
Qed.

Lemma initial_wf : wf STARRED_SLICE_NAME (initial STARRED_SLICE_NAME).
Proof. split; [apply NoDup_singleton|done]. Qed.

Lemma wf_starred slices :
  wf STARRED_SLICE_NAME slices → STARRED_SLICE_NAME ∈ sliceNames slices.
Proof. intros [_ Hhd]. by apply head_Some_elem_of. Qed.

End service.

(** C3, as stated, fails: a slice made of r1, to which r1 is added and
    from which r1 is then removed, ends empty. *)
Lemma readd_member_then_remove :
  let slices := runOps STARRED [OpCreate "mine" {["r1"]}] (initial STARRED) in
  getSliceByName slices "mine" = {["r1"]}
  ∧ ∃ slices1 slices2,
      addIdsToSlice "mine" {["r1"]} slices = Ok slices1
      ∧ removeIdsFromSlice "mine" {["r1"]} slices1 = Ok slices2
      ∧ getSliceByName slices2 "mine" = ∅
      ∧ getSliceByName slices2 "mine" ≠ getSliceByName slices "mine".
Proof.
  intros slices.
  assert (getSliceByName slices "mine" = {["r1"]}) as H0 by (vm_compute; reflexivity).
  split; [exact H0|].
  exists [(STARRED, ∅); ("mine", {["r1"]} ∪ {["r1"]})],
         [(STARRED, ∅); ("mine", ({["r1"]} ∪ {["r1"]}) ∖ {["r1"]})].
  split; [vm_compute; reflexivity|]. split; [vm_compute; reflexivity|].
  assert (getSliceByName
            [(STARRED, ∅); ("mine", ({["r1"]} ∪ {["r1"]}) ∖ {["r1"]})] "mine"
          = (∅ : gset string)) as H2 by (vm_compute; reflexivity).
  split; [exact H2|]. rewrite H2, H0. intros Heq.
  assert ("r1" ∈ (∅ : gset string)) as Hin by (rewrite Heq; set_solver).
  set_solver.
Qed.

(** C3, amended. For an existing slice, adding an id set and then removing
    the same set leaves the slice with its original members that are not in
    the set, so the original membership is restored when the set is
    disjoint from it; the other slices and the slice names are unchanged. *)
Theorem add_then_remove slices name (ids : gset string) :
  name ∈ sliceNames slices →
  ∃ slices1 slices2,
    addIdsToSlice name ids slices = Ok slices1
    ∧ removeIdsFromSlice name ids slices1 = Ok slices2
    ∧ getSliceByName slices2 name = getSliceByName slices name ∖ ids
    ∧ (ids ## getSliceByName slices name →
       getSliceByName slices2 name = getSliceByName slices name)
    ∧ (∀ other, other ≠ name →
         getSliceByName slices2 other = getSliceByName slices other)
    ∧ sliceNames slices2 = sliceNames slices.
Proof.
  intros Hin. unfold addIdsToSlice, removeIdsFromSlice.
  rewrite bool_decide_eq_true_2 by done.
  eexists _, _. split; [done|].
  rewrite bool_decide_eq_true_2 by (by rewrite sliceNames_updateSlice).
  split; [done|].
  apply lookupSlice_is_Some in Hin as [old Hold].
  assert (getSliceByName
            (updateSlice (λ o, o ∖ ids) name (updateSlice (λ o, o ∪ ids) name slices))
            name = getSliceByName slices name ∖ ids) as Hres.
  { unfold getSliceByName. rewrite !lookupSlice_updateSlice.
    rewrite !decide_True by done. rewrite Hold. simpl.
    apply set_eq. intros x. rewrite !elem_of_difference, elem_of_union. tauto. }
  split; [exact Hres|]. split; [|split].
  - intros Hdisj. rewrite Hres. by apply difference_disjoint_L.
  - intros other Hne. unfold getSliceByName.
    rewrite !lookupSlice_updateSlice. by rewrite !decide_False.
  - by rewrite !sliceNames_updateSlice.
Qed.

Lemma disjoint_add_remove_example :
  let slices := runOps STARRED [OpCreate "mine" {["r1"]}] (initial STARRED) in
  ∃ slices1 slices2,
    addIdsToSlice "mine" {["r2"]} slices = Ok slices1
    ∧ removeIdsFromSlice "mine" {["r2"]} slices1 = Ok slices2
    ∧ getSliceByName slices2 "mine" = getSliceByName slices "mine".
Proof.
  intros slices.
  destruct (add_then_remove slices "mine" {["r2"]}) as
    (s1 & s2 & H1 & H2 & _ & Hdisj & _).
  - vm_compute. set_solver.
  - exists s1, s2. split; [done|]. split; [done|]. apply Hdisj.
    subst slices. unfold getSliceByName. simpl. set_solver.
Defined.

(** C7. For slices in which the starred slice is present: deleting it
    throws [ProtectedSliceError]; after any run of service operations it is
    still listed; clearing it succeeds, leaves it with no ids and leaves the
    list of names as it was. The row of the starred slice carries the clear
    icon, whose handler removes the slice's current ids; the row of every
    other slice carries the delete icon, whose handler deletes the slice. *)
Theorem starred_slice_protected STARRED_SLICE_NAME slices :
  wf STARRED_SLICE_NAME slices →
  deleteNamedSlice STARRED_SLICE_NAME STARRED_SLICE_NAME slices = Throw ProtectedSliceError
  ∧ (∀ ops, STARRED_SLICE_NAME ∈ sliceNames (runOps STARRED_SLICE_NAME ops slices))
  ∧ (∃ slices',
       clearClicked STARRED_SLICE_NAME slices = Ok slices'
       ∧ getSliceByName slices' STARRED_SLICE_NAME = ∅
       ∧ sliceNames slices' = sliceNames slices
       ∧ wf STARRED_SLICE_NAME slices')
  ∧ rowIcon STARRED_SLICE_NAME STARRED_SLICE_NAME = ClearIcon
  ∧ iconClicked STARRED_SLICE_NAME STARRED_SLICE_NAME slices
    = removeIdsFromSlice STARRED_SLICE_NAME
        (getSliceByName slices STARRED_SLICE_NAME) slices
  ∧ (∀ name, name ≠ STARRED_SLICE_NAME →
       rowIcon STARRED_SLICE_NAME name = DeleteIcon
       ∧ iconClicked STARRED_SLICE_NAME name slices
         = deleteNamedSlice STARRED_SLICE_NAME name slices).
Proof.
  intros Hwf. pose proof (wf_starred _ _ Hwf) as Hin.
  split; [|split; [|split; [|split; [|split]]]].
  - unfold deleteNamedSlice. by rewrite !bool_decide_eq_true_2.
  - intros ops. apply wf_starred. by apply runOps_wf.
  - unfold clearClicked, removeIdsFromSlice. rewrite bool_decide_eq_true_2 by done.
    eexists. split; [done|].
    apply lookupSlice_is_Some in Hin as Hold. destruct Hold as [old Hold].
    split; [|split].
    + unfold getSliceByName. rewrite lookupSlice_updateSlice.
      rewrite decide_True by done. rewrite Hold. simpl. apply difference_diag_L.
    + apply sliceNames_updateSlice.
    + unfold wf. rewrite sliceNames_updateSlice. exact Hwf.
  - unfold rowIcon. by rewrite bool_decide_eq_true_2.
  - unfold iconClicked, rowIcon. by rewrite bool_decide_eq_true_2.
  - intros name Hne. unfold iconClicked, rowIcon.
    by rewrite bool_decide_eq_false_2.
Qed.

Lemma starred_example :
  let slices := runOps STARRED [OpAddIds STARRED {["r1"; "r2"]}] (initial STARRED) in
  deleteNamedSlice STARRED STARRED slices = Throw ProtectedSliceError
  ∧ ∃ slices',
      clearClicked STARRED slices = Ok slices'
      ∧ getSliceByName slices' STARRED = ∅
      ∧ sliceNames slices' = [STARRED].
Proof.
  intros slices.
  destruct (starred_slice_protected STARRED slices) as (Hdel & _ & Hclear & _).
  - subst slices. split; [|reflexivity]. vm_compute. apply NoDup_singleton.
  - split; [exact Hdel|]. destruct Hclear as (s' & H1 & H2 & H3 & _).
    exists s'. split; [done|]. split; [done|]. rewrite H3. reflexivity.
Defined.

(** ** Grouping *)

Section grouping.
Context {NumericFeatureBins : Type}.
Context (featureLabel : NumericFeatureBins → string → FeatureValue → string).
Context (separator : string).
Implicit Types (groups : list (string * list IndexedInput))
  (row : IndexedInput) (data : list IndexedInput).

Lemma addToGroup_names label row groups :
  (label ∈ groups.*1 → (addToGroup label row groups).*1 = groups.*1)
  ∧ (label ∉ groups.*1 → (addToGroup label row groups).*1 = groups.*1 ++ [label]).
Proof.
  induction groups as [|[l rows] rest [IH1 IH2]].
  - split; [by intros ?%elem_of_nil|done].
  - cbn [addToGroup]. destruct (decide (l = label)) as [->|Hne].
    + split; [done|]. intros Hnotin. exfalso. apply Hnotin. left.
    + split.
      * intros [?|Hin]%elem_of_cons; [done|]. cbn. f_equal. by apply IH1.
      * intros Hnotin. cbn. f_equal. apply IH2. intros Hin. apply Hnotin. by right.
Qed.

Lemma addToGroup_NoDup label row groups :
  NoDup groups.*1 → NoDup (addToGroup label row groups).*1.
Proof.
  intros Hnd. destruct (addToGroup_names label row groups) as [H1 H2].
  destruct (decide (label ∈ groups.*1)) as [Hin|Hin].
  - by rewrite H1.
  - rewrite H2 by done. apply NoDup_app. split; [done|].
    split; [|apply NoDup_singleton].
    intros x Hx ->%list_elem_of_singleton. done.
Qed.

Lemma addToGroup_nonempty label row groups :
  Forall (λ g, g.2 ≠ []) groups →
  Forall (λ g, g.2 ≠ []) (addToGroup label row groups).
Proof.
  induction 1 as [|[l rows] rest Hne Hrest IH]; simpl.
  - repeat constructor. done.
  - case_decide; constructor; simpl in *; try done.
    by intros [? ?]%app_eq_nil.
Qed.

Lemma addToGroup_inGroup label row groups l r :
  inGroup (addToGroup label row groups) l r ↔
  inGroup groups l r ∨ (l = label ∧ r = row).
Proof.
  unfold inGroup. induction groups as [|[l' rows'] rest IH]; cbn [addToGroup].
  - split.
    + intros (rows & Hin & Hr). apply list_elem_of_singleton in Hin.
      injection Hin as -> ->. apply list_elem_of_singleton in Hr. by right.
    + intros [(rows & Hin & _)|[-> ->]]; [by apply elem_of_nil in Hin|].
      exists [row]. split; by apply list_elem_of_singleton.
  - destruct (decide (l' = label)) as [->|Hne]; setoid_rewrite elem_of_cons.
    + split.
      * intros (rows & [Heq|Hin] & Hr).
        -- injection Heq as -> ->.
           apply elem_of_app in Hr as [Hr|Hr%list_elem_of_singleton]; [|by right].
           left. exists rows'. split; [by left|done].
        -- left. exists rows. split; [by right|done].
      * intros [(rows & [Heq|Hin] & Hr)|[-> ->]].
        -- injection Heq as -> ->. exists (rows' ++ [row]).
           split; [by left|]. apply elem_of_app. by left.
        -- exists rows. split; [by right|done].
        -- exists (rows' ++ [row]). split; [by left|]. apply elem_of_app. right.
           by apply list_elem_of_singleton.
    + split.
      * intros (rows & [Heq|Hin] & Hr).
        -- left. exists rows. split; [by left|done].
        -- destruct IH as [IH _].
           destruct IH as [(rows2 & H2 & Hr2)|?]; [by eauto| |by right].
           left. exists rows2. split; [by right|done].
      * intros [(rows & [Heq|Hin] & Hr)|Heq].
        -- exists rows. split; [by left|done].
        -- destruct IH as [_ IH].
           destruct IH as (rows2 & H2 & Hr2); [left; by eauto|].
           exists rows2. split; [by right|done].
        -- destruct IH as [_ IH]. destruct IH as (rows2 & H2 & Hr2); [by right|].
           exists rows2. split; [by right|done].
Qed.

(** The groups of [groupExamplesByFeatures]: distinct labels, no empty
    group, and a row is in the group of a label exactly when it is a row
    of the data with that combination label. *)
Lemma groupExamplesByFeatures_spec bins data features :
  let groups := groupExamplesByFeatures featureLabel separator bins data features in
  NoDup groups.*1
  ∧ Forall (λ g, g.2 ≠ []) groups
  ∧ ∀ l r, inGroup groups l r ↔
           r ∈ data ∧ comboLabel featureLabel separator bins features r = Some l.
Proof.
  unfold groupExamplesByFeatures.
  set (step := λ groups row,
         match comboLabel featureLabel separator bins features row with
         | Some label => addToGroup label row groups
         | None => groups
         end).
  assert (∀ todo groups0,
    NoDup groups0.*1 → Forall (λ g, g.2 ≠ []) groups0 →
    NoDup (foldl step groups0 todo).*1
    ∧ Forall (λ g, g.2 ≠ []) (foldl step groups0 todo)
    ∧ ∀ l r, inGroup (foldl step groups0 todo) l r ↔
             inGroup groups0 l r ∨
             (r ∈ todo ∧ comboLabel featureLabel separator bins features r = Some l))
    as Hgen.
  { intros todo. induction todo as [|row rest IH]; intros groups0 Hnd Hne; simpl.
    - split; [done|]. split; [done|]. intros l r. split; [by left|].
      intros [?|[Hin _]]; [done|by apply elem_of_nil in Hin].
    - assert (NoDup (step groups0 row).*1 ∧ Forall (λ g, g.2 ≠ []) (step groups0 row))
        as [Hnd' Hne'].
      { unfold step. destruct (comboLabel _ _ _ _ row); [|done].
        split; [by apply addToGroup_NoDup|by apply addToGroup_nonempty]. }
      destruct (IH _ Hnd' Hne') as (H1 & H2 & H3).
      split; [done|]. split; [done|]. intros l r. rewrite H3.
      unfold step. rewrite elem_of_cons.
      destruct (comboLabel featureLabel separator bins features row) as [label|] eqn:Hrow.
      + rewrite addToGroup_inGroup. split.
        * intros [[?|[-> ->]]|[? ?]]; [by left| |by right; split; [right|]].
          right. split; [by left|done].
        * intros [?|[[->|?] Hl]]; [by left; left| |by right].
          left. right. split; [congruence|done].
      + split.
        * intros [?|[? ?]]; [by left|]. right. split; [by right|done].
        * intros [?|[[->|?] Hl]]; [by left|congruence|by right]. }
  simpl. destruct (Hgen data [] (NoDup_nil_2) (Forall_nil_2 _)) as (H1 & H2 & H3).
  split; [done|]. split; [done|]. intros l r. rewrite H3. split.
  - intros [(rows & Hin & _)|?]; [by apply elem_of_nil in Hin|done].
  - by right.
Qed.

(** The same holds of the groups in the order of [Object.keys]. *)
Lemma orderedGroups_spec bins data features :
  let groups :=
    ownPropertyOrder (groupExamplesByFeatures featureLabel separator bins data features) in
  NoDup groups.*1
  ∧ Forall (λ g, g.2 ≠ []) groups
  ∧ ∀ l r, inGroup groups l r ↔
           r ∈ data ∧ comboLabel featureLabel separator bins features r = Some l.
Proof.
  intros groups.
  destruct (groupExamplesByFeatures_spec bins data features) as (Hnd & Hne & Hin).
  pose proof (ownPropertyOrder_Permutation
                (groupExamplesByFeatures featureLabel separator bins data features))
    as Hperm.
  fold groups in Hperm. split; [|split].
  - by rewrite Hperm.
  - by rewrite Hperm.
  - intros l r. rewrite <- Hin. unfold inGroup.
    split; intros (rows & Hg & Hr); exists rows; split; try done.
    + by rewrite <- Hperm.
    + by rewrite Hperm.
Qed.

(** For a single feature the combination label is the feature's label. *)
Lemma comboLabel_single bins feature row :
  comboLabel featureLabel separator bins [feature] row =
    featureLabel bins feature <$> data row !! feature.
Proof.
  unfold comboLabel. simpl. by destruct (data row !! feature).
Qed.

Lemma NoDup_fmap_elem_eq {A B} (f : A → B) (l : list A) x y :
  NoDup (f <$> l) → x ∈ l → y ∈ l → f x = f y → x = y.
Proof.
  intros Hnd [a Ha]%list_elem_of_lookup [b Hb]%list_elem_of_lookup Hf.
  assert (a = b) as ->; [|congruence].
  eapply (NoDup_lookup _ _ _ (f x) Hnd); rewrite list_lookup_fmap.
  - by rewrite Ha.
  - rewrite Hb. simpl. by rewrite Hf.
Qed.

Lemma addNamedSlices_ok (new : list (string * gset string)) (slices : Slices) :
  NoDup new.*1 → (∀ n, n ∈ new.*1 → n ∉ sliceNames slices) →
  addNamedSlices new slices = Ok (slices ++ new).
Proof.
  revert slices. induction new as [|[name ids] rest IH]; intros slices Hnd Hfresh.
  - simpl. by rewrite app_nil_r.
  - simpl in Hnd. apply NoDup_cons in Hnd as [Hname Hnd].
    cbn [addNamedSlices]. unfold addNamedSlice.
    rewrite bool_decide_eq_false_2 by (apply Hfresh; left). simpl.
    rewrite IH; [by rewrite <- app_assoc|done|].
    intros n Hn. unfold sliceNames. rewrite fmap_app. simpl.
    intros [Hin| ->%list_elem_of_singleton]%elem_of_app; [|done].
    by apply (Hfresh n); [right|].
Qed.

(** C8. For rows with distinct ids and one grouping feature,
    [makeSlicesFromAllLabelCombos] creates one slice per label that
    occurs, in the order in which [Object.keys] lists the groups, and
    appends them when none of their names is taken; the slices have
    distinct names, none is empty, each holds the ids of the rows with its
    label, any two are disjoint, and the union of their ids is the set of
    ids of the rows that have a value for the feature. *)
Theorem grouping_partitions sliceName bins examples feature (slices : Slices) :
  let new := slicesToCreate featureLabel separator sliceName bins examples [feature] in
  NoDup (id <$> examples) →
  ((∀ n, n ∈ new.*1 → n ∉ sliceNames slices) →
   makeSlicesFromAllLabelCombos featureLabel separator sliceName bins examples
     [feature] slices = Ok (slices ++ new))
  ∧ NoDup new.*1
  ∧ (∀ n ids, (n, ids) ∈ new →
       ids ≠ ∅ ∧
       ∃ l, n = sliceNamePrefix sliceName +:+ l ∧
            ∀ x, x ∈ ids ↔
                 ∃ r v, r ∈ examples ∧ id r = x ∧ data r !! feature = Some v
                        ∧ featureLabel bins feature v = l)
  ∧ (∀ i j s1 s2, i ≠ j → new !! i = Some s1 → new !! j = Some s2 → s1.2 ## s2.2)
  ∧ ⋃ new.*2 =
      list_to_set (id <$> filter (λ r, is_Some (data r !! feature)) examples).
Proof.
  intros new Hids.
  destruct (orderedGroups_spec bins examples [feature]) as (Hnd & Hne & Hin).
  set (groups := ownPropertyOrder
         (groupExamplesByFeatures featureLabel separator bins examples [feature])) in *.
  set (mk := λ g : string * list IndexedInput,
         (sliceNamePrefix sliceName +:+ g.1, (list_to_set (id <$> g.2) : gset string))).
  assert (new = mk <$> groups) as Hnew by done.
  assert (NoDup new.*1) as Hnames.
  { assert (new.*1 = String.append (sliceNamePrefix sliceName) <$> groups.*1) as ->
      by (by rewrite Hnew, <- !list_fmap_compose).
    apply (NoDup_fmap_2 _). exact Hnd. }
  assert (∀ l rows r, (l, rows) ∈ groups → r ∈ rows →
            r ∈ examples ∧ ∃ v, data r !! feature = Some v
                            ∧ featureLabel bins feature v = l) as Hrow.
  { intros l rows r Hg Hr. destruct (Hin l r) as [[Hd Hl] _]; [by exists rows|].
    split; [done|]. rewrite comboLabel_single in Hl.
    destruct (data r !! feature) as [v|]; [|done].
    exists v. split; [done|]. by injection Hl. }
  split; [intros Hfresh; by apply addNamedSlices_ok|]. split; [done|]. split; [|split].
  - intros n ids Hn. rewrite Hnew in Hn.
    apply list_elem_of_fmap in Hn as ([l rows] & [= -> ->] & Hg). simpl. split.
    + rewrite Forall_forall in Hne. specialize (Hne _ Hg). simpl in Hne.
      destruct rows as [|r rows]; [done|]. simpl. intros Hemp.
      assert (id r ∈ (∅ : gset string)) as Hx; [|by apply not_elem_of_empty in Hx].
      rewrite <- Hemp. apply elem_of_union. left. by apply elem_of_singleton.
    + exists l. split; [done|]. intros x. rewrite elem_of_list_to_set, list_elem_of_fmap.
      split.
      * intros (r & -> & Hr). destruct (Hrow l rows r Hg Hr) as (Hd & v & Hv & Hl).
        by exists r, v.
      * intros (r & v & Hd & <- & Hv & Hl). exists r. split; [done|].
        destruct (Hin l r) as [_ (rows' & Hg' & Hr')].
        { split; [done|]. rewrite comboLabel_single, Hv. simpl. by rewrite Hl. }
        pose proof (NoDup_fmap_elem_eq fst groups (l, rows) (l, rows')
                      Hnd Hg Hg' eq_refl) as Heq.
        by injection Heq as ->.
  - intros i j s1 s2 Hij H1 H2. rewrite Hnew in H1, H2.
    rewrite list_lookup_fmap in H1, H2.
    destruct (groups !! i) as [[l1 rows1]|] eqn:Hg1; [|done].
    destruct (groups !! j) as [[l2 rows2]|] eqn:Hg2; [|done].
    injection H1 as <-. injection H2 as <-. simpl.
    apply elem_of_disjoint. intros x Hx1 Hx2.
    apply elem_of_list_to_set, list_elem_of_fmap in Hx1 as (r1 & -> & Hr1).
    apply elem_of_list_to_set, list_elem_of_fmap in Hx2 as (r2 & Heq & Hr2).
    destruct (Hrow l1 rows1 r1) as (Hd1 & v1 & Hv1 & Hl1);
      [by eapply list_elem_of_lookup_2|done|].
    destruct (Hrow l2 rows2 r2) as (Hd2 & v2 & Hv2 & Hl2);
      [by eapply list_elem_of_lookup_2|done|].
    assert (r1 = r2) as <- by (by eapply (NoDup_fmap_elem_eq id examples)).
    assert (l1 = l2) as <- by congruence.
    apply Hij. eapply (NoDup_lookup _ _ _ l1 Hnd); rewrite list_lookup_fmap.
    + by rewrite Hg1.
    + by rewrite Hg2.
  - apply set_eq. intros x. rewrite elem_of_union_list, elem_of_list_to_set.
    rewrite list_elem_of_fmap. split.
    + intros (X & HX & Hx). rewrite Hnew in HX.
      apply list_elem_of_fmap in HX as ([n ids] & -> & Hn).
      apply list_elem_of_fmap in Hn as ([l rows] & [= -> ->] & Hg). simpl in Hx.
      apply elem_of_list_to_set, list_elem_of_fmap in Hx as (r & -> & Hr).
      destruct (Hrow l rows r Hg Hr) as (Hd & v & Hv & Hl).
      exists r. split; [done|]. apply list_elem_of_filter. split; [|done]. by exists v.
    + intros (r & -> & [[v Hv] Hd]%list_elem_of_filter).
      destruct (Hin (featureLabel bins feature v) r) as [_ (rows & Hg & Hr)].
      { split; [done|]. by rewrite comboLabel_single, Hv. }
      exists (list_to_set (id <$> rows)). split.
      * rewrite Hnew. apply list_elem_of_fmap.
        exists (mk (featureLabel bins feature v, rows)). split; [done|].
        apply list_elem_of_fmap. by eexists.
      * apply elem_of_list_to_set, list_elem_of_fmap. by exists r.
Qed.

End grouping.

(** The dataset of four rows grouped by [label]: a slice for pos with r1
    and r4, a slice for neg with r3, and no slice holds r2. Rows labelled
    10, 2 and 10, grouped without a name: the slice 2 comes before the
    slice 10, though the label 10 occurs first. *)
Lemma dataset_by_label_example :
  let new := slicesToCreate plainLabel " " (Some "by") () dataset ["label"] in
  let byNumber := slicesToCreate plainLabel " " None () numbered ["label"] in
  new = [("by pos", {["r1"; "r4"]}); ("by neg", {["r3"]})]
  ∧ makeSlicesFromAllLabelCombos plainLabel " " (Some "by") () dataset ["label"]
      (initial STARRED) = Ok (initial STARRED ++ new)
  ∧ ⋃ new.*2 = list_to_set
      (id <$> filter (λ r, is_Some (data r !! "label")) dataset)
  ∧ byNumber = [("2", {["r2"]}); ("10", {["r1"; "r3"]})]
  ∧ makeSlicesFromAllLabelCombos plainLabel " " None () numbered ["label"]
      (initial STARRED) = Ok (initial STARRED ++ byNumber).
Proof.
  intros new byNumber.
  assert (NoDup (id <$> dataset)) as Hids by compute_done.
  assert (NoDup (id <$> numbered)) as Hids' by compute_done.
  destruct (grouping_partitions plainLabel " " (Some "by") () dataset "label"
              (initial STARRED) Hids) as (Hmake & _ & _ & _ & Hunion).
  destruct (grouping_partitions plainLabel " " None () numbered "label"
              (initial STARRED) Hids') as (Hmake' & _).
  split; [vm_compute; reflexivity|]. split; [|split; [exact Hunion|split]].
  - apply Hmake. intros n Hn Hn'. vm_compute in Hn'.
    apply list_elem_of_singleton in Hn' as ->.
    vm_compute in Hn. by repeat (apply elem_of_cons in Hn as [Hn|Hn]; [done|]);
      apply elem_of_nil in Hn.
  - vm_compute. reflexivity.
  - apply Hmake'. intros n Hn Hn'. vm_compute in Hn'.
    apply list_elem_of_singleton in Hn' as ->.
    vm_compute in Hn. by repeat (apply elem_of_cons in Hn as [Hn|Hn]; [done|]);
      apply elem_of_nil in Hn.
Defined.

(** ** Export *)

(** C9. [getArrayData] returns one row per datapoint of the slice, in the
    slice's order; the row of a datapoint starts with its dataset index and
    continues with its values under the dataset's column keys, in the
    order of the keys. *)
Theorem getArrayData_rows currentInputDataKeys getIndexById getSliceDataByName
    sliceName :
  let rows := getArrayData currentInputDataKeys getIndexById getSliceDataByName sliceName in
  length rows = length (getSliceDataByName sliceName)
  ∧ ∀ i row, getSliceDataByName sliceName !! i = Some row →
      ∃ cells, rows !! i = Some cells
        ∧ length cells = S (length currentInputDataKeys)
        ∧ cells !! 0 = Some (IndexCell (getIndexById (id row)))
        ∧ ∀ j c, currentInputDataKeys !! j = Some c →
                 cells !! S j = Some (ValueCell (data row !! c)).
Proof.
  unfold getArrayData. split; [by rewrite length_fmap|].
  intros i row Hrow. eexists. split; [by rewrite list_lookup_fmap, Hrow|].
  unfold rowData. simpl. split; [by rewrite length_fmap|]. split; [done|].
  intros j c Hc. by rewrite list_lookup_fmap, Hc.
Qed.

Lemma export_row_example :
  getArrayData ["label"; "text"] (λ i, if bool_decide (i = "r3") then 2%Z else 0%Z)
    (λ _, [labelled "r3" "neg"]) "by neg"
  = [[IndexCell 2; ValueCell (Some (FString "neg")); ValueCell None]].
Proof.
  destruct (getArrayData_rows ["label"; "text"]
              (λ i, if bool_decide (i = "r3") then 2%Z else 0%Z)
              (λ _, [labelled "r3" "neg"]) "by neg") as [_ H].
  destruct (H 0 (labelled "r3" "neg") eq_refl) as (cells & Hc & _).
  reflexivity.
Defined.

End SliceProps.

(** ** The table builder: errors, keys, labels and row lengths *)

Module TableProps.
Import ClassificationModule Examples ClassificationProps.

Lemma parseHead_key svc model inputs output predKey key rows :
  parseHead svc model inputs output predKey = Ok (key, rows) →
  key = getColumnName svc model predKey None.
Proof.
  unfold parseHead.
  destruct (match getField output predKey with
            | Some (MulticlassPreds parent vocab) => Ok (parent, vocab)
            | Some OtherField => Ok (None, None)
            | None => Throw TypeError
            end) as [[parent vocab]|]; simpl; [|done].
  destruct (labelsOf _ _); simpl; [|done].
  destruct (colorRangeOf _ _); simpl; [|done].
  by intros [= <- _].
Qed.

(** X1. For a classification head, [parseHead] throws exactly when the head
    declares no vocabulary and there is no first input row with a score
    vector, or when a colour applies and the colour scale has no range; the
    exception is always a [TypeError], and in every other case a table is
    returned under the head's column name. *)
Theorem parseHead_throws_iff svc model inputs output predKey parent vocab :
  getField output predKey = Some (MulticlassPreds parent vocab) →
  let key := getColumnName svc model predKey None in
  let applyColor :=
    includesName (getColumnName svc model predKey (Some PREDICTED_CLASS))
      (getColumnName svc model predKey (Some CORRECT)) parent
      (name (selectedColorOption svc)) in
  let noLabels :=
    vocab = None ∧
    (inputs = [] ∨
     ∃ input rest, inputs = input :: rest ∧ getScores svc (id input) key = None) in
  let noRange := applyColor = true ∧ scaleRange (selectedColorOption svc) = None in
  (parseHead svc model inputs output predKey = Throw TypeError ↔ noLabels ∨ noRange)
  ∧ (∀ e, parseHead svc model inputs output predKey = Throw e → e = TypeError)
  ∧ (¬ (noLabels ∨ noRange) →
     ∃ rows, parseHead svc model inputs output predKey = Ok (key, rows)).
Proof.
  intros Hf key applyColor noLabels noRange.
  assert (labelsOf vocab
            (inputDataOf svc key (getColumnName svc model predKey (Some PREDICTED_CLASS))
               parent inputs) = Throw TypeError ↔ noLabels) as Hlab.
  { unfold noLabels. destruct vocab as [labels|]; simpl.
    - split; [done|]. by intros [? _].
    - destruct inputs as [|input rest]; simpl.
      + split; [|done]. intros _. split; [done|]. by left.
      + destruct (getScores svc (id input) key) as [scores|] eqn:Hs.
        * split; [done|]. intros [_ [?|(i & r & [= <- <-] & Hn)]]; [done|].
          congruence.
        * split; [|done]. intros _. split; [done|]. right. by exists input, rest. }
  assert (∀ e, labelsOf vocab
            (inputDataOf svc key (getColumnName svc model predKey (Some PREDICTED_CLASS))
               parent inputs) = Throw e → e = TypeError) as Hlabe.
  { intros e. destruct vocab; simpl; [done|].
    destruct inputs as [|input rest]; simpl; [congruence|].
    destruct (getScores svc (id input) key); [done|congruence]. }
  assert (colorRangeOf svc applyColor = Throw TypeError ↔ noRange) as Hcol.
  { unfold noRange, colorRangeOf. destruct applyColor.
    - destruct (scaleRange (selectedColorOption svc)); split; try done.
      by intros [_ ?].
    - split; [done|]. by intros [? _]. }
  assert (∀ e, colorRangeOf svc applyColor = Throw e → e = TypeError) as Hcole.
  { intros e. unfold colorRangeOf. destruct applyColor; [|done].
    destruct (scaleRange _); [done|congruence]. }
  unfold parseHead. rewrite Hf. simpl. fold key. fold applyColor.
  destruct (labelsOf vocab _) as [labels|e1] eqn:Hl; simpl.
  - destruct (colorRangeOf svc applyColor) as [cr|e2] eqn:Hc; simpl.
    + split; [|split].
      * split; [done|]. intros [Hn|Hn]; [by apply Hlab in Hn|by apply Hcol in Hn].
      * done.
      * intros _. eauto.
    + rewrite (Hcole e2 eq_refl) in *. split; [|split].
      * split; [|done]. intros _. right. by apply Hcol.
      * by intros e [= <-].
      * intros Hno. exfalso. apply Hno. right. by apply Hcol.
  - rewrite (Hlabe e1 eq_refl) in *. split; [|split].
    + split; [|done]. intros _. left. by apply Hlab.
    + by intros e [= <-].
    + intros Hno. exfalso. apply Hno. left. by apply Hlab.
Qed.

Lemma parseHead_throws_example :
  parseHead (nullScores false None) "m" [datapoint "r1"]
    [("probas", MulticlassPreds None None)] "probas" = Throw TypeError
  ∧ ∀ e, parseHead (nullScores false None) "m" [datapoint "r1"]
           [("probas", MulticlassPreds None None)] "probas" = Throw e →
         e = TypeError.
Proof.
  destruct (parseHead_throws_iff (nullScores false None) "m" [datapoint "r1"]
              [("probas", MulticlassPreds None None)] "probas" None None eq_refl)
    as (Hiff & He & _).
  split; [|exact He]. apply Hiff. left. split; [done|]. right.
  by exists (datapoint "r1"), [].
Defined.

Lemma parseHeads_dom svc model inputs output keys acc lp :
  parseHeads svc model inputs output keys acc = Ok lp →
  dom lp = dom acc ∪ list_to_set (filter (λ n, n ≠ "__proto__")
                                    ((λ k, getColumnName svc model k None) <$> keys)).
Proof.
  revert acc. induction keys as [|predKey rest IH]; intros acc H; simpl in *.
  - injection H as <-. by rewrite (right_id_L ∅ (∪)).
  - destruct (parseHead svc model inputs output predKey) as [[key rows]|] eqn:Hh;
      simpl in H; [|done].
    apply parseHead_key in Hh as ->. rewrite (IH _ H), dom_setProperty.
    rewrite filter_cons. destruct (decide (getColumnName svc model predKey None = "__proto__")).
    + rewrite decide_False by (by intros Hne). by rewrite (right_id_L ∅ (∪)).
    + rewrite decide_True by done. simpl. by rewrite (assoc_L (∪)).
Qed.

(** X2. When [parseResult] returns, the keys of its table are exactly the
    column names of the model's classification heads, the name [__proto__]
    apart, under which the assignment of the source creates no key: every
    head has an entry, even one whose table is empty, and a model without
    a classification head gets the empty table. *)
Theorem parseResult_dom svc model inputs lp :
  parseResult svc model inputs = Ok lp →
  let names := (λ k, getColumnName svc model k None)
               <$> findSpecKeys (getModelSpec svc model) in
  dom lp = list_to_set (filter (λ n, n ≠ "__proto__") names)
  ∧ ("__proto__" ∉ names → dom lp = list_to_set names)
  ∧ (findSpecKeys (getModelSpec svc model) = [] → lp = ∅).
Proof.
  intros H names. pose proof (parseHeads_dom _ _ _ _ _ _ _ H) as Hdom.
  rewrite dom_empty_L, (left_id_L ∅ (∪)) in Hdom. fold names in Hdom.
  split; [done|]. split.
  - intros Hno. rewrite Hdom. f_equal. clear Hdom.
    induction names as [|n rest IH]; [done|].
    rewrite filter_cons, decide_True.
    + f_equal. apply IH. intros Hin. apply Hno. by right.
    + intros ->. apply Hno. left.
  - intros Hnil. unfold names in Hdom. rewrite Hnil in Hdom. simpl in Hdom.
    by apply dom_empty_inv_L.
Qed.

(** A label [__proto__] gets no entry in the table of its head, and a
    head whose column is named [__proto__] gets no key in the result. *)
Lemma proto_keys_example :
  parseHead protoNames "m" [datapoint "r1"] (getModelSpec protoNames "m") "probas"
  = Ok ("__proto__",
        {[ "a" := [ {| value := Some 0.5%float; isTruth := false;
                       isPredicted := false; color := None |} ] ]})
  ∧ parseResult protoNames "m" [datapoint "r1"] = Ok ∅.
Proof. split; vm_compute; reflexivity. Qed.

Lemma empty_head_key_example :
  dom ({[ "m:probas" := ∅ ]} : LabeledPredictions) = list_to_set ["m:probas"].
Proof.
  assert (parseResult (nullScores true (Some ["a"; "b"])) "m" [datapoint "r1"]
          = Ok {[ "m:probas" := ∅ ]}) as H by (vm_compute; reflexivity).
  destruct (parseResult_dom (nullScores true (Some ["a"; "b"])) "m"
              [datapoint "r1"] {[ "m:probas" := ∅ ]} H) as (_ & Hdom & _).
  apply Hdom. vm_compute. intros Hin.
  apply list_elem_of_singleton in Hin. discriminate Hin.
Defined.

(** X3. The labels of a head's table are labels of the head: vocabulary
    entries when a vocabulary is declared, and otherwise decimal positions
    below the length of the first input row's score vector. *)
Theorem table_labels svc model inputs output predKey parent vocab key rows label :
  getField output predKey = Some (MulticlassPreds parent vocab) →
  parseHead svc model inputs output predKey = Ok (key, rows) →
  is_Some (rows !! label) →
  match vocab with
  | Some labels => label ∈ labels
  | None =>
      ∃ input rest scores (k : nat),
        inputs = input :: rest ∧ getScores svc (id input) key = Some scores
        ∧ k < length scores ∧ label = pretty k
  end.
Proof.
  intros Hf Hh [r Hr].
  destruct (parseHead_Ok _ _ _ _ _ _ _ _ _ Hf Hh) as (_ & labels & cr & Hlab & ->).
  apply forEachLabel_lookup_Some in Hr as [Hr|(j & Hj & _)]; [done|].
  destruct vocab as [labels'|]; simpl in Hlab.
  - injection Hlab as <-. by eapply list_elem_of_lookup_2.
  - destruct inputs as [|input rest]; simpl in Hlab; [done|].
    destruct (getScores svc (id input) key) as [scores|] eqn:Hs; [|done].
    injection Hlab as <-. rewrite list_lookup_fmap in Hj.
    destruct (seq 0 (length scores) !! j) as [k|] eqn:Hk; [|done].
    injection Hj as <-. apply lookup_seq in Hk as [-> Hlt].
    by exists input, rest, scores, j.
Qed.

Lemma abc_labels_example : "b" ∈ ["a"; "b"; "c"].
Proof.
  apply (table_labels (abc true) "m" [datapoint "r1"]
           [("probas", MulticlassPreds None (Some ["a"; "b"; "c"]))] "probas"
           None (Some ["a"; "b"; "c"]) "m:probas" abcRows "b").
  - reflexivity.
  - vm_compute. reflexivity.
  - vm_compute. eauto.
Defined.

Lemma length_omap_le {A B} (f : A → option B) (l : list A) :
  length (omap f l) ≤ length l.
Proof.
  induction l as [|x l IH]; [done|]. cbn. destruct (f x); simpl; lia.
Qed.

(** The row lists of one head are not empty and hold at most one value per
    input row. *)
Lemma parseHead_row_lengths svc model inputs output predKey key rows label r :
  parseHead svc model inputs output predKey = Ok (key, rows) →
  rows !! label = Some r →
  0 < length r ≤ length inputs.
Proof.
  unfold parseHead.
  destruct (match getField output predKey with
            | Some (MulticlassPreds parent vocab) => Ok (parent, vocab)
            | Some OtherField => Ok (None, None)
            | None => Throw TypeError
            end) as [[parent vocab]|]; simpl; [|done].
  destruct (labelsOf _ _) as [labels|]; simpl; [|done].
  destruct (colorRangeOf _ _) as [cr|]; simpl; [|done].
  intros [= <- <-] Hr.
  apply forEachLabel_lookup_Some in Hr as [Hr|(j & _ & Hne & ->)]; [done|].
  split.
  - destruct (rowPreds _ _ _ _ _ _ _); [done|simpl; lia].
  - unfold rowPreds. etrans; [apply length_omap_le|].
    unfold inputDataOf. by rewrite length_fmap.
Qed.

Lemma selectionData_length svc : length (selectionData svc) ≤ 2.
Proof.
  unfold selectionData.
  destruct (compareExamplesEnabled svc), (pinnedInputData svc), (selectedInputData svc);
    simpl; lia.
Qed.

Lemma assignModels_lookup svc models inputs acc k rows :
  (assignModels svc models inputs acc).1 !! k = Some rows →
  acc !! k = Some rows ∨
  ∃ model lp, model ∈ models ∧ parseResult svc model inputs = Ok lp
              ∧ lp !! k = Some rows.
Proof.
  revert acc. induction models as [|model rest IH]; intros acc H; simpl in H.
  - by left.
  - destruct (parseResult svc model inputs) as [new|e] eqn:Hp; simpl in H.
    + apply IH in H as [H|(m & lp & Hm & Hlp & Hk)].
      * apply lookup_union_Some_raw in H as [H|[_ H]]; [|by left].
        right. exists model, new. split; [left|done].
      * right. exists m, lp. split; [by right|done].
    + by left.
Qed.

(** X4. Every row list that [updateSelection] stores holds one or two
    values; the bound is kept from one update to the next. *)
Theorem updateSelection_row_lengths svc (lp : LabeledPredictions) :
  (∀ k rows label r, lp !! k = Some rows → rows !! label = Some r →
                     1 ≤ length r ≤ 2) →
  ∀ k rows label r,
    (updateSelection svc lp).1 !! k = Some rows → rows !! label = Some r →
    1 ≤ length r ≤ 2.
Proof.
  intros Hinv k rows label r. unfold updateSelection. case_bool_decide as Hlen.
  - simpl. by rewrite lookup_empty.
  - intros [Hk|(model & new & _ & Hp & Hk)]%assignModels_lookup Hr.
    + by eapply Hinv.
    + destruct (parseResult_lookup _ _ _ _ _ _ Hp Hk) as (predKey & _ & Hh).
      pose proof (parseHead_row_lengths _ _ _ _ _ _ _ _ _ Hh Hr) as [H1 H2].
      pose proof (selectionData_length svc). lia.
Qed.

Lemma x_row_lengths_example :
  1 ≤ length [pinnedInfo; selectedInfo] ≤ 2.
Proof.
  apply (updateSelection_row_lengths (pinnedAndSelected true) ∅) with
    (k := "m:probas") (rows := {[ "x" := [pinnedInfo; selectedInfo] ]}) (label := "x").
  - intros k rows label r Hk. by rewrite lookup_empty in Hk.
  - vm_compute. reflexivity.
  - reflexivity.
Defined.

(** ** Sparse mode against dense mode *)

Lemma omap_sublist {A B} (f g : A → option B) (l : list A) :
  (∀ x y, f x = Some y → g x = Some y) → sublist (omap f l) (omap g l).
Proof.
  intros Hfg. induction l as [|x l IH]; [constructor|]. cbn.
  destruct (f x) as [y|] eqn:Hf.
  - rewrite (Hfg x y Hf). by constructor.
  - destruct (g x); [by constructor|done].
Qed.

Lemma rowPred_sparse_dense svc ac cr pck label i d info :
  rowPred svc ac cr pck label i d = Some info →
  sparseMode svc = true →
  rowPred (onClickSwitch svc) ac cr pck label i d = Some info.
Proof.
  unfold rowPred. simpl. intros H Hs. rewrite Hs in *. simpl in *.
  destruct (predScores d); [|done].
  by destruct (SPARSE_MODE_THRESHOLD <=? toNumber _)%float.
Qed.

(** X5. Switching sparse mode off only adds rows: for a head with distinct
    vocabulary labels, every label of the sparse table is a label of the
    dense table, and its sparse row list is a sublist of its dense row
    list, with the same values, flags and colours. *)
Theorem sparse_rows_sublist_of_dense svc model inputs output predKey parent
    labels key sparseRows :
  sparseMode svc = true →
  getField output predKey = Some (MulticlassPreds parent (Some labels)) →
  NoDup labels →
  parseHead svc model inputs output predKey = Ok (key, sparseRows) →
  ∃ denseRows,
    parseHead (onClickSwitch svc) model inputs output predKey = Ok (key, denseRows)
    ∧ ∀ label r, sparseRows !! label = Some r →
        ∃ r', denseRows !! label = Some r' ∧ sublist r r'.
Proof.
  intros Hs Hf Hnd Hh.
  rewrite (parseHead_declared svc _ _ _ _ _ _ Hf) in Hh.
  rewrite (parseHead_declared (onClickSwitch svc) _ _ _ _ _ _ Hf).
  simpl in *.
  change (colorRangeOf (onClickSwitch svc)) with (colorRangeOf svc).
  change (inputDataOf (onClickSwitch svc)) with (inputDataOf svc).
  destruct (colorRangeOf svc _) as [cr|]; simpl in *; [|done].
  injection Hh as <- <-. eexists. split; [done|].
  intros label r Hr.
  assert (label ≠ "__proto__") as Hp.
  { intros ->. by rewrite forEachLabel_lookup_proto in Hr. }
  apply forEachLabel_lookup_Some in Hr as [Hr|(j & Hj & Hne & ->)]; [done|].
  rewrite (forEachLabel_nodup _ _ _ _ _ _ 0 _ j label Hnd Hj Hp). simpl.
  match goal with
  | |- context [rowPreds (onClickSwitch svc) ?a ?c ?p label j ?d] =>
      assert (sublist (rowPreds svc a c p label j d)
                (rowPreds (onClickSwitch svc) a c p label j d)) as Hsub
  end.
  { apply omap_sublist. intros d info Hd. by apply rowPred_sparse_dense. }
  destruct (rowPreds (onClickSwitch svc) _ _ _ _ _ _) as [|x l] eqn:Hd.
  - apply sublist_nil_r in Hsub. done.
  - eauto.
Qed.

Lemma sparse_rows_sublist_example :
  ∃ denseRows,
    parseHead (onClickSwitch (abc true)) "m" [datapoint "r1"]
      [("probas", MulticlassPreds None (Some ["a"; "b"; "c"]))] "probas"
    = Ok ("m:probas", denseRows)
    ∧ is_Some (denseRows !! "a").
Proof.
  destruct (sparse_rows_sublist_of_dense (abc true) "m" [datapoint "r1"]
              [("probas", MulticlassPreds None (Some ["a"; "b"; "c"]))] "probas"
              None ["a"; "b"; "c"] "m:probas" abcRows)
    as (denseRows & Hd & _).
  - reflexivity.
  - reflexivity.
  - compute_done.
  - vm_compute. reflexivity.
  - exists denseRows. split; [exact Hd|].
    vm_compute in Hd. injection Hd as <-. vm_compute. eauto.
Defined.

(** X6. With sparse mode off, the row list of a label has one value per
    input row, in the order of the inputs. The value of an input without a
    score vector is the placeholder; the value of an input with scores is
    its score at a position of the label, flagged predicted exactly when
    the label is the input's predicted class and truth exactly when the
    label is the input's value of the parent feature. *)
Theorem dense_row_describes_inputs svc model inputs output predKey parent vocab
    key rows label r k input :
  sparseMode svc = false →
  getField output predKey = Some (MulticlassPreds parent vocab) →
  parseHead svc model inputs output predKey = Ok (key, rows) →
  rows !! label = Some r →
  inputs !! k = Some input →
  length r = length inputs ∧
  ∃ info, r !! k = Some info ∧
    match getScores svc (id input) key with
    | None =>
        value info = Some 0%float ∧ isPredicted info = false
        ∧ isTruth info = false ∧ color info = None
    | Some scores =>
        isPredicted info =
          strictEq label
            (getLabel svc (id input)
               (getColumnName svc model predKey (Some PREDICTED_CLASS)))
        ∧ isTruth info =
            match parent with
            | Some p => strictEq label (getLabel svc (id input) p)
            | None => false
            end
        ∧ ∃ labels j,
            labelsOf vocab
              (inputDataOf svc key
                 (getColumnName svc model predKey (Some PREDICTED_CLASS))
                 parent inputs) = Ok labels
            ∧ labels !! j = Some label ∧ value info = scores !! j
    end.
Proof.
  intros Hs Hf Hh Hr Hk.
  destruct (parseHead_Ok _ _ _ _ _ _ _ _ _ Hf Hh) as (_ & labels & cr & Hlab & ->).
  apply forEachLabel_lookup_Some in Hr as [Hr|(j & Hj & _ & ->)]; [done|].
  split.
  { rewrite rowPreds_dense_length by done. unfold inputDataOf. by rewrite length_fmap. }
  set (pck := getColumnName svc model predKey (Some PREDICTED_CLASS)) in *.
  set (d := {| predScores := getScores svc (id input) key;
               predClass := getLabel svc (id input) pck;
               truth := match parent with
                        | Some p => getLabel svc (id input) p
                        | None => None
                        end |}).
  assert (inputDataOf svc key pck parent inputs !! k = Some d) as Hd.
  { unfold inputDataOf. by rewrite list_lookup_fmap, Hk. }
  rewrite (rowPreds_dense_lookup svc _ _ _ _ _ _ k d Hs Hd).
  unfold rowPred. rewrite Hs. simpl.
  destruct (getScores svc (id input) key) as [scores|]; simpl.
  - eexists. split; [done|]. simpl. split; [done|]. split.
    + by destruct parent.
    + by exists labels, j.
  - eexists. split; [done|]. done.
Qed.

Lemma selected_row_example :
  ∃ info, [pinnedInfo; selectedInfo] !! 1 = Some info
          ∧ isPredicted info = true ∧ value info = Some 0.8%float.
Proof.
  destruct (dense_row_describes_inputs (pinnedAndSelected false) "m"
              [datapoint "p"; datapoint "s"]
              [("probas", MulticlassPreds None (Some ["x"]))] "probas"
              None (Some ["x"]) "m:probas" {[ "x" := [pinnedInfo; selectedInfo] ]}
              "x" [pinnedInfo; selectedInfo] 1 (datapoint "s"))
    as (_ & info & Hinfo & Hdesc).
  - reflexivity.
  - reflexivity.
  - vm_compute. reflexivity.
  - reflexivity.
  - reflexivity.
  - exists info. split; [exact Hinfo|]. injection Hinfo as <-. done.
Defined.

(** ** Colours *)

(** X7. Colours of a head's table. If the colour option is none of the
    head's predicted-class column, correctness column and parent feature,
    no value has a colour. Otherwise a value is the uncoloured placeholder,
    or, under the correctness column, its colour is entry 1 of the range
    when it is the truth and entry 0 when it is not, or, under the other
    two options, its colour is the range entry at a position of its
    label. *)
Theorem table_colours svc model inputs output predKey parent vocab key rows
    label r info :
  getField output predKey = Some (MulticlassPreds parent vocab) →
  parseHead svc model inputs output predKey = Ok (key, rows) →
  rows !! label = Some r → info ∈ r →
  let predCorrectKey := getColumnName svc model predKey (Some CORRECT) in
  let applyColor :=
    includesName (getColumnName svc model predKey (Some PREDICTED_CLASS))
      predCorrectKey parent (name (selectedColorOption svc)) in
  (applyColor = false → color info = None)
  ∧ (applyColor = true →
     ∃ colorRange, scaleRange (selectedColorOption svc) = Some colorRange ∧
       ((value info = Some 0%float ∧ isPredicted info = false
         ∧ isTruth info = false ∧ color info = None)
        ∨ (name (selectedColorOption svc) = predCorrectKey
           ∧ color info = colorRange !! (if isTruth info then 1 else 0))
        ∨ (name (selectedColorOption svc) ≠ predCorrectKey
           ∧ ∃ labels j,
               labelsOf vocab
                 (inputDataOf svc key
                    (getColumnName svc model predKey (Some PREDICTED_CLASS))
                    parent inputs) = Ok labels
               ∧ labels !! j = Some label ∧ color info = colorRange !! j))).
Proof.
  intros Hf Hh Hr Hin pcc ac.
  pose proof (parseHead_key _ _ _ _ _ _ _ Hh) as Hkey.
  unfold parseHead in Hh. rewrite Hf in Hh. simpl in Hh. rewrite <- Hkey in Hh.
  fold pcc in Hh. fold ac in Hh.
  destruct (labelsOf vocab _) as [labels|] eqn:Hlab; simpl in Hh; [|done].
  unfold colorRangeOf in Hh.
  assert (∃ cr, rows = forEachLabel svc ac cr pcc
                         (inputDataOf svc key
                            (getColumnName svc model predKey (Some PREDICTED_CLASS))
                            parent inputs) labels 0 ∅
                ∧ (ac = true → scaleRange (selectedColorOption svc) = Some cr))
    as (cr & -> & Hcr).
  { destruct ac.
    - destruct (scaleRange (selectedColorOption svc)) as [cr|]; simpl in Hh; [|done].
      injection Hh as <-. by exists cr.
    - simpl in Hh. injection Hh as <-. by exists []. }
  apply forEachLabel_lookup_Some in Hr as [Hr|(j & Hj & _ & ->)]; [done|].
  unfold rowPreds in Hin. apply list_elem_of_omap in Hin as (d & _ & Hd).
  unfold rowPred in Hd. split.
  - intros Hac. rewrite Hac in Hd.
    destruct (predScores d); [|by destruct (negb _); simplify_eq].
    by destruct (negb _ || _); simplify_eq.
  - intros Hac. exists cr. split; [by apply Hcr|]. rewrite Hac in Hd.
    destruct (predScores d) as [scores|].
    + destruct (negb _ || _); [|done]. injection Hd as <-. simpl. right.
      case_bool_decide as Hname.
      * by left.
      * right. split; [done|]. by exists labels, j.
    + destruct (negb _); [|done]. injection Hd as <-. by left.
Qed.

(** A configuration coloured by correctness: the truth label b is not the
    predicted label c. *)
Lemma correctness_colours_example :
  let svc :=
    {| compareExamplesEnabled := false; currentModels := ["m"];
       getModelSpec := λ _, [("probas", MulticlassPreds (Some "label") (Some ["b"; "c"]))];
       selectedColorOption :=
         {| name := "m:probas:correct"; scaleRange := Some ["red"; "green"] |};
       getColumnName := colName;
       getScores := λ _ _, Some [0.25; 0.75]%float;
       getLabel := λ _ k, if bool_decide (k = "label") then Some "b" else Some "c";
       pinnedInputData := None; selectedInputData := Some (datapoint "r1");
       sparseMode := false |} in
  parseResult svc "m" [datapoint "r1"] =
    Ok {[ "m:probas" :=
            {[ "b" := [ {| value := Some 0.25%float; isTruth := true;
                           isPredicted := false; color := Some "green" |} ];
               "c" := [ {| value := Some 0.75%float; isTruth := false;
                           isPredicted := true; color := Some "red" |} ] ]} ]}
  ∧ ∃ colorRange, scaleRange (selectedColorOption svc) = Some colorRange.
Proof.
  intros svc. split; [vm_compute; reflexivity|].
  set (b := {| value := Some 0.25%float; isTruth := true;
               isPredicted := false; color := Some "green" |}).
  set (c := {| value := Some 0.75%float; isTruth := false;
               isPredicted := true; color := Some "red" |}).
  destruct (table_colours svc "m" [datapoint "r1"]
              [("probas", MulticlassPreds (Some "label") (Some ["b"; "c"]))]
              "probas" (Some "label") (Some ["b"; "c"]) "m:probas"
              {[ "b" := [b]; "c" := [c] ]} "b" [b] b) as [_ H].
  - reflexivity.
  - vm_compute. reflexivity.
  - reflexivity.
  - left.
  - destruct H as (cr & Hcr & _); [reflexivity|]. by exists cr.
Defined.

(** ** The reactive update and the display filter *)

(** X8. Running [updateSelection] again on its own result, with the
    services unchanged, changes nothing: the table and the outcome are the
    same. *)
Theorem updateSelection_idempotent svc (lp : LabeledPredictions) :
  updateSelection svc (updateSelection svc lp).1 = updateSelection svc lp.
Proof.
  unfold updateSelection. case_bool_decide as Hlen; [done|].
  set (models := currentModels svc). set (inputs := selectionData svc).
  destruct (assignModels_union svc models inputs lp) as [H1 H2].
  destruct (assignModels_union svc models inputs
              (assignModels svc models inputs lp).1) as [H3 H4].
  apply injective_projections.
  - rewrite H3, H1, (assoc_L (∪)). f_equal. apply (idemp_L (∪)).
  - by rewrite H4, H2.
Qed.

(** X9. If the data service names the column of a head with the model's
    name as a prefix, every entry that an update computes is displayed by
    [renderImpl], whatever the table held before. *)
Theorem computed_entries_are_active svc (lp : LabeledPredictions) k rows :
  (∀ model predKey,
     startsWith (getColumnName svc model predKey None) model = true) →
  (updateSelection svc ∅).1 !! k = Some rows →
  activeLabeledPreds svc (updateSelection svc lp).1 !! k = Some rows.
Proof.
  intros Hprefix Hk. apply activeLabeledPreds_lookup.
  unfold updateSelection in *.
  destruct (bool_decide (length (selectionData svc) = 0)); simpl in *;
    [by rewrite lookup_empty in Hk|].
  destruct (assignModels_union svc (currentModels svc) (selectionData svc) lp)
    as [-> _].
  split; [by apply lookup_union_Some_l|].
  apply assignModels_lookup in Hk as [Hk|(model & new & Hm & Hp & Hk)];
    [by rewrite lookup_empty in Hk|].
  destruct (parseResult_lookup _ _ _ _ _ _ Hp Hk) as (predKey & _ & Hh).
  apply parseHead_key in Hh as ->. by exists model.
Qed.

Lemma nli_entry_active_example :
  let first := (updateSelection (underModel "sst") ∅).1 in
  is_Some (activeLabeledPreds (underModel "nli")
             (updateSelection (underModel "nli") first).1 !! "nli:probas").
Proof.
  intros first.
  assert (is_Some ((updateSelection (underModel "nli") ∅).1 !! "nli:probas"))
    as [rows Hrows] by (vm_compute; eauto).
  exists rows.
  apply (computed_entries_are_active (underModel "nli") first "nli:probas" rows);
    [|exact Hrows].
  intros model predKey. unfold startsWith. simpl. unfold colName.
  clear. induction model as [|a model IH]; simpl.
  - by destruct (predKey +:+ "").
  - rewrite IH. by destruct (Ascii.ascii_dec a a).
Defined.

(** X18. In every mode the flags of a value come from an input row that has
    a score vector: a value under a label is flagged predicted only if the
    label is that row's predicted class, and flagged truth only if the head
    has a parent feature and the label is that row's value of it. *)
Theorem flags_are_sound svc model inputs output predKey parent vocab key rows
    label r info :
  getField output predKey = Some (MulticlassPreds parent vocab) →
  parseHead svc model inputs output predKey = Ok (key, rows) →
  rows !! label = Some r → info ∈ r →
  ∃ input, input ∈ inputs ∧
    (isPredicted info = true →
     is_Some (getScores svc (id input) key)
     ∧ getLabel svc (id input)
         (getColumnName svc model predKey (Some PREDICTED_CLASS)) = Some label)
    ∧ (isTruth info = true →
       is_Some (getScores svc (id input) key)
       ∧ ∃ p, parent = Some p ∧ getLabel svc (id input) p = Some label).
Proof.
  intros Hf Hh Hr Hin.
  destruct (parseHead_Ok _ _ _ _ _ _ _ _ _ Hf Hh) as (_ & labels & cr & _ & ->).
  apply forEachLabel_lookup_Some in Hr as [Hr|(j & _ & _ & ->)]; [done|].
  unfold rowPreds in Hin. apply list_elem_of_omap in Hin as (d & Hd & Hp).
  unfold inputDataOf in Hd. apply list_elem_of_fmap in Hd as (input & -> & Hinput).
  exists input. split; [done|]. unfold rowPred in Hp. simpl in Hp.
  destruct (getScores svc (id input) key) as [scores|].
  - destruct (negb _ || _); [|done]. injection Hp as <-. simpl. split.
    + intros Hpred. split; [by eexists|]. unfold strictEq in Hpred.
      destruct (getLabel svc (id input) _) as [c|]; [|done].
      by apply bool_decide_eq_true in Hpred as ->.
    + intros Htruth. split; [by eexists|]. destruct parent as [p|]; [|done].
      exists p. split; [done|]. unfold strictEq in Htruth.
      destruct (getLabel svc (id input) p) as [t|]; [|done].
      by apply bool_decide_eq_true in Htruth as ->.
  - destruct (negb _); [|done]. injection Hp as <-. simpl. done.
Qed.

Lemma abc_predicted_flag_example :
  ∃ input, input ∈ [datapoint "r1"]
           ∧ getLabel (abc true) (id input) "m:probas:class" = Some "c".
Proof.
  set (c := {| value := Some 0.795%float; isTruth := false;
               isPredicted := true; color := None |}).
  destruct (flags_are_sound (abc true) "m" [datapoint "r1"]
              [("probas", MulticlassPreds None (Some ["a"; "b"; "c"]))] "probas"
              None (Some ["a"; "b"; "c"]) "m:probas" abcRows "c" [c] c)
    as (input & Hin & Hpred & _).
  - reflexivity.
  - vm_compute. reflexivity.
  - reflexivity.
  - left.
  - exists input. split; [exact Hin|]. by apply Hpred.
Defined.

(** ** Rendering a head's table *)

Lemma omap_nil {A B} (f : A → option B) (l : list A) :
  (∀ x, x ∈ l → f x = None) → omap f l = [].
Proof.
  induction l as [|x l IH]; intros Hf; [done|]. cbn.
  rewrite (Hf x) by left. apply IH. intros y Hy. apply Hf. by right.
Qed.

(** X10. In sparse mode, for a head with a declared vocabulary: if every
    input row has no score vector or only scores that fail the threshold
    test, the head's table is empty, and [renderFeatureTable] throws a
    [TypeError] on it, whatever the order of its entries. *)
Theorem empty_table_throws svc model inputs output predKey parent labels key rows :
  sparseMode svc = true →
  getField output predKey = Some (MulticlassPreds parent (Some labels)) →
  (∀ input scores, input ∈ inputs →
     getScores svc (id input) (getColumnName svc model predKey None) = Some scores →
     Forall (λ v, (SPARSE_MODE_THRESHOLD <=? v)%float = false) scores) →
  parseHead svc model inputs output predKey = Ok (key, rows) →
  rows = ∅
  ∧ ∀ hasTruth entries, entries ≡ₚ map_to_list rows →
      renderFeatureTable svc hasTruth entries = Throw TypeError.
Proof.
  intros Hs Hf Hlow Hh.
  destruct (parseHead_Ok _ _ _ _ _ _ _ _ _ Hf Hh) as (Hkey & labels' & cr & _ & Hrows).
  assert (rows = ∅) as ->.
  { rewrite Hrows. apply forEachLabel_all_empty. intros label j.
    apply omap_nil. intros d Hd. unfold inputDataOf in Hd.
    apply list_elem_of_fmap in Hd as (input & -> & Hin).
    unfold rowPred. simpl. rewrite Hs. simpl.
    destruct (getScores svc (id input) key) as [scores|] eqn:Hsc; [|done].
    rewrite Hkey in Hsc. specialize (Hlow input scores Hin Hsc).
    destruct (scores !! j) as [v|] eqn:Hv; simpl.
    - rewrite Forall_forall in Hlow.
      rewrite (Hlow v) by (by eapply list_elem_of_lookup_2). done.
    - done. }
  split; [done|]. intros hasTruth entries Hperm.
  rewrite map_to_list_empty in Hperm. apply Permutation_nil_r in Hperm as ->.
  done.
Qed.

Lemma null_scores_render_example :
  updateSelection (nullScores true (Some ["a"; "b"])) ∅ = ({[ "m:probas" := ∅ ]}, None)
  ∧ renderFeatureTable (nullScores true (Some ["a"; "b"])) false
      (map_to_list (∅ : LabelRows)) = Throw TypeError.
Proof.
  split; [vm_compute; reflexivity|].
  destruct (empty_table_throws (nullScores true (Some ["a"; "b"])) "m"
              [datapoint "r1"] [("probas", MulticlassPreds None (Some ["a"; "b"]))]
              "probas" None ["a"; "b"] "m:probas" ∅) as [_ H].
  - reflexivity.
  - reflexivity.
  - intros input scores _ Hsc. vm_compute in Hsc. done.
  - vm_compute. reflexivity.
  - by apply H.
Defined.

Lemma dense_row_length svc model inputs output predKey key rows label r :
  sparseMode svc = false →
  parseHead svc model inputs output predKey = Ok (key, rows) →
  rows !! label = Some r →
  length r = length inputs.
Proof.
  intros Hs. unfold parseHead.
  destruct (match getField output predKey with
            | Some (MulticlassPreds parent vocab) => Ok (parent, vocab)
            | Some OtherField => Ok (None, None)
            | None => Throw TypeError
            end) as [[parent vocab]|]; simpl; [|done].
  destruct (labelsOf _ _) as [labels|]; simpl; [|done].
  destruct (colorRangeOf _ _) as [cr|]; simpl; [|done].
  intros [= <- <-] Hr.
  apply forEachLabel_lookup_Some in Hr as [Hr|(j & _ & _ & ->)]; [done|].
  rewrite rowPreds_dense_length by done. unfold inputDataOf. by rewrite length_fmap.
Qed.

(** X11. With sparse mode off, the table rendered for a head of the
    current selection is rectangular: [renderFeatureTable] returns one row
    per label, every row has as many cells as there are column names, and
    there are four column names when a pinned and a selected datapoint are
    shown and two when one datapoint is shown. *)
Theorem dense_table_is_rectangular svc model output predKey key rows hasTruth
    entries :
  sparseMode svc = false →
  parseHead svc model (selectionData svc) output predKey = Ok (key, rows) →
  entries ≡ₚ map_to_list rows →
  entries ≠ [] →
  ∃ columnNames tableData,
    renderFeatureTable svc hasTruth entries = Ok (columnNames, tableData)
    ∧ length tableData = length entries
    ∧ Forall (λ row, length row = length columnNames) tableData
    ∧ length columnNames = if decide (length (selectionData svc) = 2) then 4 else 2.
Proof.
  intros Hs Hh Hperm Hne.
  assert (∀ e, e ∈ entries → length e.2 = length (selectionData svc)
                             ∧ 0 < length e.2) as Hlen.
  { intros [label values] He. rewrite Hperm in He.
    apply elem_of_map_to_list in He. simpl. split.
    - by eapply dense_row_length.
    - by eapply parseHead_row_lengths. }
  pose proof (selectionData_length svc) as Hle.
  assert (∀ e, e ∈ entries →
            length (tableRow hasTruth e.1 e.2)
            = if decide (length (selectionData svc) = 2) then 4 else 2) as Hrow.
  { intros e He. destruct (Hlen e He) as [H1 H2]. unfold tableRow.
    destruct (e.2) as [|a [|b [|c l]]]; simpl in *; case_decide; lia. }
  unfold renderFeatureTable. clear Hperm Hlen.
  destruct entries as [|e0 rest]; [done|].
  assert (e0 ∈ e0 :: rest) as He0 by left.
  assert (Forall (λ row, length row
                         = if decide (length (selectionData svc) = 2) then 4 else 2)
            ((λ e, tableRow hasTruth e.1 e.2) <$> (e0 :: rest))) as Hall.
  { apply Forall_fmap, Forall_forall. intros e Hin. by apply Hrow. }
  cbn [fmap list_fmap columnNamesOf] in *. rewrite (Hrow e0 He0).
  destruct (decide (length (selectionData svc) = 2)); simpl.
  - eexists _, _. split; [done|].
    split; [cbn [length]; f_equal; apply length_fmap|]. done.
  - destruct (compareExamplesEnabled svc); eexists _, _;
      (split; [done|]);
      (split; [cbn [length]; f_equal; apply length_fmap|]); done.
Qed.

Lemma x_table_columns_example :
  ∃ columnNames tableData,
    renderFeatureTable (pinnedAndSelected false) false
      [("x", [pinnedInfo; selectedInfo])] = Ok (columnNames, tableData)
    ∧ length columnNames = 4.
Proof.
  destruct (dense_table_is_rectangular (pinnedAndSelected false) "m"
              [("probas", MulticlassPreds None (Some ["x"]))] "probas" "m:probas"
              {[ "x" := [pinnedInfo; selectedInfo] ]} false
              [("x", [pinnedInfo; selectedInfo])])
    as (names & data & Hr & _ & _ & Hn).
  - reflexivity.
  - vm_compute. reflexivity.
  - by rewrite map_to_list_singleton.
  - done.
  - by exists names, data.
Defined.

(** X12. The flag of [renderImpl] that offers the sparse-mode switch scans
    the heads in order. It is true only if some head has more than ten
    labels, false only if every head declares at most ten labels, and it
    throws, always a [TypeError], only at a head without a vocabulary that
    is preceded by heads of at most ten labels each. *)
Theorem allowSparseMode_outcomes specs :
  match allowSparseMode specs with
  | Ok true => ∃ fs labels, fs ∈ specs ∧ fs.2 = Some labels ∧ 10 < length labels
  | Ok false =>
      Forall (λ fs, ∃ labels, fs.2 = Some labels ∧ length labels ≤ 10) specs
  | Throw e =>
      e = TypeError ∧
      ∃ before parent after,
        specs = before ++ (parent, None) :: after
        ∧ Forall (λ fs, ∃ labels, fs.2 = Some labels ∧ length labels ≤ 10) before
  end.
Proof.
  induction specs as [|[parent vocab] rest IH]; simpl; [done|].
  destruct vocab as [labels|].
  - destruct (10 <? length labels) eqn:Hlen.
    + exists (parent, Some labels), labels. split; [left|]. split; [done|].
      by apply Nat.ltb_lt.
    + apply Nat.ltb_ge in Hlen.
      destruct (allowSparseMode rest) as [[|]|e].
      * destruct IH as (fs & l & Hin & Hfs). exists fs, l. split; [by right|done].
      * constructor; [|done]. by exists labels.
      * destruct IH as (-> & before & p & after & -> & Hbefore). split; [done|].
        exists ((parent, Some labels) :: before), p, after. split; [done|].
        constructor; [|done]. by exists labels.
  - split; [done|]. by exists [], parent, rest.
Qed.

End TableProps.

(** ** The slice editor: icons and the create handler *)

Module EditorProps.
Import SliceService GroupService SliceModule Examples SliceProps.

Lemma filter_eq_nil {A} (P : A → Prop) `{!∀ x, Decision (P x)} (l : list A) :
  filter P l = [] ↔ ∀ x, x ∈ l → ¬ P x.
Proof.
  split.
  - intros Hnil x Hx HP. by eapply filter_nil_not_elem_of.
  - intros Hall. destruct (filter P l) as [|y r] eqn:E; [done|].
    assert (y ∈ filter P l) as Hy by (rewrite E; left).
    apply list_elem_of_filter in Hy as [HP Hy]. by destruct (Hall y Hy).
Qed.

(** X13. Appending the selection to an existing slice succeeds and makes
    the slice the union of its ids and the selected ids. The append icon
    is disabled exactly when appending would leave the slice as it is, and
    it is disabled after an append. *)
Theorem append_button_and_handler selectedIds (slices : Slices) name :
  name ∈ sliceNames slices →
  ∃ slices',
    appendClicked name selectedIds slices = Ok slices'
    ∧ getSliceByName slices' name
      = getSliceByName slices name ∪ list_to_set selectedIds
    ∧ (appendButtonEnabled selectedIds slices name = false
       ↔ getSliceByName slices' name = getSliceByName slices name)
    ∧ appendButtonEnabled selectedIds slices' name = false.
Proof.
  intros Hin. unfold appendClicked, addIdsToSlice.
  rewrite bool_decide_eq_true_2 by done. eexists. split; [done|].
  assert (∀ sl, appendButtonEnabled selectedIds sl name = false
                ↔ list_to_set selectedIds ⊆ getSliceByName sl name) as Hbtn.
  { intros sl. unfold appendButtonEnabled. rewrite Nat.ltb_ge.
    rewrite Nat.le_0_r, length_zero_iff_nil, filter_eq_nil.
    unfold isInSlice. split.
    - intros H x Hx%elem_of_list_to_set. specialize (H x Hx).
      apply dec_stable in H. by apply bool_decide_unpack in H.
    - intros H x Hx Hn. apply Hn. apply bool_decide_pack, H.
      by apply elem_of_list_to_set. }
  assert (getSliceByName (updateSlice (λ old, old ∪ list_to_set selectedIds) name slices)
            name = getSliceByName slices name ∪ list_to_set selectedIds) as Hnew.
  { unfold getSliceByName. rewrite lookupSlice_updateSlice, decide_True by done.
    apply lookupSlice_is_Some in Hin as [old ->]. done. }
  split; [done|]. rewrite !Hbtn, Hnew. split; [|apply union_subseteq_r].
  split.
  - intros Hsub. rewrite (comm_L (∪)). by apply subseteq_union_1_L.
  - intros Heq. rewrite <- Heq. apply union_subseteq_r.
Qed.

Lemma append_button_example :
  let slices := runOps STARRED [OpCreate "mine" {["r1"]}] (initial STARRED) in
  appendButtonEnabled ["r1"; "r2"] slices "mine" = true
  ∧ ∃ slices', appendClicked "mine" ["r1"; "r2"] slices = Ok slices'
               ∧ appendButtonEnabled ["r1"; "r2"] slices' "mine" = false.
Proof.
  intros slices. split; [vm_compute; reflexivity|].
  destruct (append_button_and_handler ["r1"; "r2"] slices "mine")
    as (slices' & H1 & _ & _ & H2).
  - vm_compute. right. left.
  - by exists slices'.
Defined.

(** X14. Clearing an existing slice succeeds and leaves it with zero
    datapoints, so the clear icon and the export controls of its row are
    disabled; the other slices keep their ids, and clearing again changes
    nothing. *)
Theorem clear_disables_icons (slices : Slices) name :
  name ∈ sliceNames slices →
  ∃ slices',
    clearClicked name slices = Ok slices'
    ∧ numDatapoints slices' name = 0
    ∧ shouldDisableIcons slices' name = true
    ∧ (∀ other, other ≠ name →
         getSliceByName slices' other = getSliceByName slices other)
    ∧ clearClicked name slices' = Ok slices'.
Proof.
  intros Hin. unfold clearClicked, removeIdsFromSlice.
  rewrite bool_decide_eq_true_2 by done. eexists. split; [done|].
  set (slices' := updateSlice _ name slices).
  assert (getSliceByName slices' name = ∅) as Hemp.
  { unfold getSliceByName, slices'. rewrite lookupSlice_updateSlice, decide_True by done.
    apply lookupSlice_is_Some in Hin as [old Hold]. unfold getSliceByName.
    rewrite Hold. simpl. apply difference_diag_L. }
  split; [|split; [|split]].
  - unfold numDatapoints. by rewrite Hemp, size_empty.
  - unfold shouldDisableIcons, numDatapoints. by rewrite Hemp, size_empty.
  - intros other Hne. unfold getSliceByName, slices'.
    by rewrite lookupSlice_updateSlice, decide_False.
  - rewrite bool_decide_eq_true_2 by (unfold slices'; by rewrite sliceNames_updateSlice).
    f_equal. rewrite Hemp. unfold updateSlice.
    rewrite <- (list_fmap_id slices') at 2. apply list_fmap_ext.
    intros _ [n ids] _. simpl. case_decide; [|done].
    by rewrite difference_empty_L.
Qed.

Lemma starred_icons_example :
  let slices := runOps STARRED [OpAddIds STARRED {["r1"; "r2"]}] (initial STARRED) in
  shouldDisableIcons slices STARRED = false
  ∧ ∃ slices', clearClicked STARRED slices = Ok slices'
               ∧ shouldDisableIcons slices' STARRED = true.
Proof.
  intros slices. split; [vm_compute; reflexivity|].
  destruct (clear_disables_icons slices STARRED) as (slices' & H1 & _ & H2 & _).
  - vm_compute. left.
  - by exists slices'.
Defined.

(** ** The create handler *)

Lemma addNamedSlice_Ok name ids (slices slices' : Slices) :
  addNamedSlice name ids slices = Ok slices' →
  slices' = slices ++ [(name, ids)] ∧ name ∉ sliceNames slices.
Proof.
  unfold addNamedSlice. case_bool_decide; [done|]. by intros [= <-].
Qed.

Lemma addNamedSlice_Throw name ids (slices : Slices) e :
  addNamedSlice name ids slices = Throw e →
  e = DuplicateNameError ∧ name ∈ sliceNames slices.
Proof.
  unfold addNamedSlice. case_bool_decide; [|done]. by intros [= <-].
Qed.

(** The loop adds the new slices in order behind the existing ones and
    stops at the first name that is taken. *)
Lemma addNamedSlicesUntil_spec new (slices : Slices) :
  ∃ added,
    (addNamedSlicesUntil new slices).1 = slices ++ added
    ∧ match (addNamedSlicesUntil new slices).2 with
      | None => added = new
      | Some e =>
          e = DuplicateNameError ∧
          ∃ name ids rest, new = added ++ (name, ids) :: rest
                           ∧ name ∈ sliceNames (slices ++ added)
      end.
Proof.
  revert slices. induction new as [|[name ids] rest IH]; intros slices; simpl.
  - exists []. by rewrite app_nil_r.
  - destruct (addNamedSlice name ids slices) as [slices'|e] eqn:Ha.
    + apply addNamedSlice_Ok in Ha as [-> Hfresh].
      destruct (IH (slices ++ [(name, ids)])) as (added & H1 & H2).
      exists ((name, ids) :: added). rewrite H1, <- app_assoc. split; [done|].
      destruct (addNamedSlicesUntil rest _).2 as [e|].
      * destruct H2 as (-> & n & i & r & -> & Hn). split; [done|].
        exists n, i, r. split; [done|]. by rewrite <- app_assoc in Hn.
      * by rewrite H2.
    + apply addNamedSlice_Throw in Ha as [-> Hin]. exists []. simpl.
      rewrite app_nil_r. split; [done|]. split; [done|]. by exists name, ids, rest.
Qed.

Lemma lookupSlice_app_fresh (slices : Slices) name ids :
  name ∉ sliceNames slices →
  lookupSlice (slices ++ [(name, ids)]) name = Some ids.
Proof.
  unfold sliceNames. induction slices as [|[n i] rest IH]; simpl; intros Hn.
  - by rewrite decide_True.
  - apply not_elem_of_cons in Hn as [Hne Hn]. rewrite decide_False by done.
    by apply IH.
Qed.

Section create.
Context {Bins : Type}.
Context (featureLabel : Bins → string → FeatureValue → string).
Context (separator : string).
Context (selectedIds : list string) (examples : list IndexedInput).
Implicit Types e : Editor Bins.

(** X15. [handleClickCreate] never removes or changes an existing slice and
    never touches the bins. When it completes, the name field and the
    feature list are reset, so the create button is disabled whatever is
    selected; when the slice service throws, the exception is a
    [DuplicateNameError] and the form and the selected slice are as
    before. *)
Theorem handleClickCreate_outcome e :
  let e' := (handleClickCreate featureLabel separator selectedIds examples e).1 in
  namedSlices e `prefix_of` namedSlices e'
  ∧ sliceByBins e' = sliceByBins e
  ∧ match (handleClickCreate featureLabel separator selectedIds examples e).2 with
    | None =>
        sliceName e' = None ∧ sliceByFeatures e' = []
        ∧ ∀ ids, createButtonEnabled ids e' = false
    | Some exn =>
        exn = DuplicateNameError ∧ sliceName e' = sliceName e
        ∧ sliceByFeatures e' = sliceByFeatures e
        ∧ selectedSliceName e' = selectedSliceName e
    end.
Proof.
  assert (∀ ids (x : Editor Bins), sliceName x = None → sliceByFeatures x = [] →
            createButtonEnabled ids x = false) as Hbtn.
  { intros ids x Hn Hf. unfold createButtonEnabled, anyCheckboxChecked.
    rewrite Hn, Hf. simpl. by rewrite andb_false_r. }
  unfold handleClickCreate. destruct (anyCheckboxChecked e).
  - destruct (addNamedSlicesUntil_spec
                (slicesToCreate featureLabel separator (sliceName e) (sliceByBins e)
                   examples (sliceByFeatures e)) (namedSlices e)) as (added & H1 & H2).
    destruct (addNamedSlicesUntil _ _) as [slices' [exn|]]; simpl in *.
    + destruct H2 as [-> _]. split; [by exists added|]. done.
    + split; [by exists added|]. split; [done|]. split; [done|]. split; [done|].
      intros ids. by apply Hbtn.
  - destruct (sliceName e) as [n|] eqn:Hn.
    + destruct (addNamedSlice n _ _) as [slices'|exn] eqn:Ha; simpl.
      * apply addNamedSlice_Ok in Ha as [-> _]. split; [by eexists|].
        split; [done|]. split; [done|]. split; [done|]. intros ids. by apply Hbtn.
      * apply addNamedSlice_Throw in Ha as [-> _]. by rewrite Hn.
    + simpl. split; [done|]. split; [done|]. split; [done|]. split; [done|].
      intros ids. by apply Hbtn.
Qed.

(** X16. Creating slices from checked features, when it completes, appends
    the slice of every group to the list, in the order in which
    [Object.keys] lists the groups, and selects the last name of the list:
    the last new slice, or, when no row gave a group, the slice that was
    last before. *)
Theorem create_from_features_selects_last e e' :
  anyCheckboxChecked e = true →
  handleClickCreate featureLabel separator selectedIds examples e = (e', None) →
  let new := slicesToCreate featureLabel separator (sliceName e) (sliceByBins e)
               examples (sliceByFeatures e) in
  namedSlices e' = namedSlices e ++ new
  ∧ selectedSliceName e' = match last new with
                           | Some s => Some s.1
                           | None => lastCreatedSlice (namedSlices e)
                           end.
Proof.
  intros Hany. unfold handleClickCreate. rewrite Hany.
  destruct (addNamedSlicesUntil_spec
              (slicesToCreate featureLabel separator (sliceName e) (sliceByBins e)
                 examples (sliceByFeatures e)) (namedSlices e)) as (added & H1 & H2).
  destruct (addNamedSlicesUntil _ _) as [slices' [exn|]]; simpl in *; [done|].
  intros [= <-]. simpl. subst added slices'. split; [done|].
  unfold lastCreatedSlice, sliceNames. rewrite fmap_app, last_app, fmap_last.
  by destruct (last _).
Qed.

(** X17. Creating a slice from a name that is not taken, with no feature
    checked, appends a slice with that name and the selected ids and
    selects it. The handler does this without consulting the create
    button, which is disabled when nothing is selected or the name is
    empty. *)
Theorem create_from_name e n :
  sliceByFeatures e = [] →
  sliceName e = Some n →
  n ∉ sliceNames (namedSlices e) →
  ∃ e',
    handleClickCreate featureLabel separator selectedIds examples e = (e', None)
    ∧ namedSlices e' = namedSlices e ++ [(n, list_to_set selectedIds)]
    ∧ getSliceByName (namedSlices e') n = list_to_set selectedIds
    ∧ selectedSliceName e' = Some n
    ∧ (selectedIds = [] ∨ n = "" → createButtonEnabled selectedIds e = false).
Proof.
  intros Hf Hn Hfresh. unfold handleClickCreate, anyCheckboxChecked.
  rewrite Hf, Hn. simpl. unfold addNamedSlice.
  rewrite bool_decide_eq_false_2 by done. eexists. split; [done|]. simpl.
  split; [done|]. split; [|split; [done|]].
  - unfold getSliceByName. by rewrite lookupSlice_app_fresh.
  - unfold createButtonEnabled, anyCheckboxChecked. rewrite Hf, Hn. simpl.
    rewrite andb_false_r. simpl. intros [->| ->]; [by rewrite andb_false_r|done].
Qed.

End create.

(** The dataset grouped by label under the name "by": the slice of neg is
    created last and selected. The rows labelled 10, 2, 10 grouped without
    a name: the group names are array indices, so the slice 2 is created
    before the slice 10, and 10 is selected. *)
Lemma create_from_features_example :
  let e := {| sliceByFeatures := ["label"]; sliceByBins := ();
              sliceName := Some "by"; namedSlices := initial STARRED;
              selectedSliceName := None |} in
  let unnamed := {| sliceByFeatures := ["label"]; sliceByBins := ();
                    sliceName := None; namedSlices := initial STARRED;
                    selectedSliceName := None |} in
  (∃ e', handleClickCreate plainLabel " " [] dataset e = (e', None)
         ∧ selectedSliceName e' = Some "by neg")
  ∧ (∃ e', handleClickCreate plainLabel " " [] numbered unnamed = (e', None)
           ∧ namedSlices e'
             = initial STARRED ++ [("2", {["r2"]}); ("10", {["r1"; "r3"]})]
           ∧ selectedSliceName e' = Some "10").
Proof.
  intros e unnamed. split.
  - set (e' := {| sliceByFeatures := []; sliceByBins := (); sliceName := None;
                  namedSlices := initial STARRED
                                 ++ [("by pos", {["r1"; "r4"]}); ("by neg", {["r3"]})];
                  selectedSliceName := Some "by neg" |}).
    assert (handleClickCreate plainLabel " " [] dataset e = (e', None)) as He
      by (vm_compute; reflexivity).
    exists e'. split; [exact He|].
    destruct (create_from_features_selects_last plainLabel " " [] dataset e e' eq_refl He)
      as [_ Hsel].
    rewrite Hsel. vm_compute. reflexivity.
  - set (e' := {| sliceByFeatures := []; sliceByBins := (); sliceName := None;
                  namedSlices := initial STARRED
                                 ++ [("2", {["r2"]}); ("10", {["r1"; "r3"]})];
                  selectedSliceName := Some "10" |}).
    assert (handleClickCreate plainLabel " " [] numbered unnamed = (e', None)) as He
      by (vm_compute; reflexivity).
    exists e'. split; [exact He|].
    destruct (create_from_features_selects_last plainLabel " " [] numbered unnamed e'
                eq_refl He) as [Hslices Hsel].
    split.
    + rewrite Hslices. vm_compute. reflexivity.
    + rewrite Hsel. vm_compute. reflexivity.
Defined.

Lemma mine_slice_example :
  let e := {| sliceByFeatures := []; sliceByBins := ();
              sliceName := Some "mine"; namedSlices := initial STARRED;
              selectedSliceName := None |} in
  createButtonEnabled [] e = false
  ∧ ∃ e', handleClickCreate plainLabel " " [] dataset e = (e', None)
          ∧ sliceNames (namedSlices e') = [STARRED; "mine"].
Proof.
  intros e.
  destruct (create_from_name plainLabel " " [] dataset e "mine")
    as (e' & He & Hs & _ & _ & Hbtn).
  - reflexivity.
  - reflexivity.
  - vm_compute. intros [=]%list_elem_of_singleton.
  - split; [apply Hbtn; by left|]. exists e'. split; [exact He|]. by rewrite Hs.
Defined.

(** ** Slices from any list of features *)

Section features.
Context {Bins : Type}.
Context (featureLabel : Bins → string → FeatureValue → string).
Context (separator : string).

Lemma comboLabel_is_Some bins features row :
  is_Some (comboLabel featureLabel separator bins features row)
  ↔ Forall (λ f, is_Some (data row !! f)) features.
Proof.
  unfold comboLabel. rewrite fmap_is_Some, mapM_is_Some.
  apply Forall_proper; [|done]. intros f. unfold compose. apply fmap_is_Some.
Qed.

Lemma slicesToCreate_NoDup sliceName bins examples features :
  NoDup (slicesToCreate featureLabel separator sliceName bins examples features).*1.
Proof.
  destruct (orderedGroups_spec featureLabel separator bins examples features)
    as (Hnd & _ & _).
  unfold slicesToCreate. rewrite <- list_fmap_compose.
  set (groups := ownPropertyOrder
         (groupExamplesByFeatures featureLabel separator bins examples features)) in *.
  assert ((fst ∘ (λ g : string * list IndexedInput,
                    (sliceNamePrefix sliceName +:+ g.1,
                     (list_to_set (id <$> g.2) : gset string)))) <$> groups
          = String.append (sliceNamePrefix sliceName) <$> groups.*1) as ->
    by (by rewrite <- list_fmap_compose).
  apply (NoDup_fmap_2 _). exact Hnd.
Qed.

Lemma addNamedSlices_Ok_inv new (slices slices' : Slices) :
  addNamedSlices new slices = Ok slices' →
  slices' = slices ++ new ∧ ∀ n, n ∈ new.*1 → n ∉ sliceNames slices.
Proof.
  revert slices. induction new as [|[name ids] rest IH]; intros slices; simpl.
  - intros [= <-]. rewrite app_nil_r. split; [done|]. by intros n ?%elem_of_nil.
  - destruct (addNamedSlice name ids slices) as [s1|] eqn:Ha; simpl; [|done].
    apply addNamedSlice_Ok in Ha as [-> Hfresh]. intros [-> Hrest]%IH.
    rewrite <- app_assoc. split; [done|].
    intros n [->|Hn]%elem_of_cons; [done|]. specialize (Hrest n Hn).
    intros Hin. apply Hrest. unfold sliceNames. rewrite fmap_app.
    apply elem_of_app. by left.
Qed.

Lemma addNamedSlices_Throw_inv new (slices : Slices) e :
  addNamedSlices new slices = Throw e → e = DuplicateNameError.
Proof.
  revert slices. induction new as [|[name ids] rest IH]; intros slices; simpl; [done|].
  destruct (addNamedSlice name ids slices) as [s1|e1] eqn:Ha; simpl.
  - apply IH.
  - apply addNamedSlice_Throw in Ha as [-> _]. by intros [= <-].
Qed.

(** X19. For rows with distinct ids and any list of grouping features:
    when [makeSlicesFromAllLabelCombos] completes, it has appended the new
    slices behind the existing ones, in the order in which [Object.keys]
    lists the groups; their names are distinct, none is empty, any two are
    disjoint, and the union of their ids is the set of ids of the rows
    that have a value for every feature. *)
Theorem grouping_by_features_partitions sliceName bins examples features
    (slices slices' : Slices) :
  NoDup (id <$> examples) →
  makeSlicesFromAllLabelCombos featureLabel separator sliceName bins examples
    features slices = Ok slices' →
  let new := slicesToCreate featureLabel separator sliceName bins examples features in
  slices' = slices ++ new
  ∧ NoDup new.*1
  ∧ (∀ n ids, (n, ids) ∈ new → ids ≠ ∅)
  ∧ (∀ i j s1 s2, i ≠ j → new !! i = Some s1 → new !! j = Some s2 → s1.2 ## s2.2)
  ∧ ⋃ new.*2 =
      list_to_set
        (id <$> filter (λ r, Forall (λ f, is_Some (data r !! f)) features) examples).
Proof.
  intros Hids Hmake new. apply addNamedSlices_Ok_inv in Hmake as [-> _].
  destruct (orderedGroups_spec featureLabel separator bins examples features)
    as (Hnd & Hne & Hin).
  set (groups := ownPropertyOrder
         (groupExamplesByFeatures featureLabel separator bins examples features)) in *.
  set (mk := λ g : string * list IndexedInput,
         (sliceNamePrefix sliceName +:+ g.1, (list_to_set (id <$> g.2) : gset string))).
  assert (new = mk <$> groups) as Hnew by done.
  assert (∀ l rows r, (l, rows) ∈ groups → r ∈ rows →
            r ∈ examples
            ∧ comboLabel featureLabel separator bins features r = Some l) as Hrow.
  { intros l rows r Hg Hr. apply Hin. by exists rows. }
  split; [done|]. split; [apply slicesToCreate_NoDup|]. split; [|split].
  - intros n ids Hn. rewrite Hnew in Hn.
    apply list_elem_of_fmap in Hn as ([l rows] & [= -> ->] & Hg). simpl.
    rewrite Forall_forall in Hne. specialize (Hne _ Hg). simpl in Hne.
    destruct rows as [|r rows]; [done|]. simpl. intros Hemp.
    assert (id r ∈ (∅ : gset string)) as Hx; [|by apply not_elem_of_empty in Hx].
    rewrite <- Hemp. apply elem_of_union. left. by apply elem_of_singleton.
  - intros i j s1 s2 Hij H1 H2. rewrite Hnew in H1, H2.
    rewrite list_lookup_fmap in H1, H2.
    destruct (groups !! i) as [[l1 rows1]|] eqn:Hg1; [|done].
    destruct (groups !! j) as [[l2 rows2]|] eqn:Hg2; [|done].
    injection H1 as <-. injection H2 as <-. simpl.
    apply elem_of_disjoint. intros x Hx1 Hx2.
    apply elem_of_list_to_set, list_elem_of_fmap in Hx1 as (r1 & -> & Hr1).
    apply elem_of_list_to_set, list_elem_of_fmap in Hx2 as (r2 & Heq & Hr2).
    destruct (Hrow l1 rows1 r1) as (Hd1 & Hl1); [by eapply list_elem_of_lookup_2|done|].
    destruct (Hrow l2 rows2 r2) as (Hd2 & Hl2); [by eapply list_elem_of_lookup_2|done|].
    assert (r1 = r2) as <- by (by eapply (NoDup_fmap_elem_eq id examples)).
    assert (l1 = l2) as <- by congruence.
    apply Hij. eapply (NoDup_lookup _ _ _ l1 Hnd); rewrite list_lookup_fmap.
    + by rewrite Hg1.
    + by rewrite Hg2.
  - apply set_eq. intros x. rewrite elem_of_union_list, elem_of_list_to_set.
    rewrite list_elem_of_fmap. split.
    + intros (X & HX & Hx). rewrite Hnew in HX.
      apply list_elem_of_fmap in HX as ([n ids] & -> & Hn).
      apply list_elem_of_fmap in Hn as ([l rows] & [= -> ->] & Hg). simpl in Hx.
      apply elem_of_list_to_set, list_elem_of_fmap in Hx as (r & -> & Hr).
      destruct (Hrow l rows r Hg Hr) as (Hd & Hl).
      exists r. split; [done|]. apply list_elem_of_filter. split; [|done].
      apply (comboLabel_is_Some bins features r). by rewrite Hl.
    + intros (r & -> & [Hall Hd]%list_elem_of_filter).
      apply (comboLabel_is_Some bins features r) in Hall as [l Hl].
      destruct (Hin l r) as [_ (rows & Hg & Hr)]; [done|].
      exists (list_to_set (id <$> rows)). split.
      * rewrite Hnew. apply list_elem_of_fmap.
        exists (mk (l, rows)). split; [done|].
        apply list_elem_of_fmap. by eexists.
      * apply elem_of_list_to_set, list_elem_of_fmap. by exists r.
Qed.

(** X20. [makeSlicesFromAllLabelCombos] completes exactly when none of the
    names it generates is taken; otherwise it throws, and what it throws is
    a [DuplicateNameError]. *)
Theorem makeSlices_completes_iff sliceName bins examples features (slices : Slices) :
  ((∃ slices', makeSlicesFromAllLabelCombos featureLabel separator sliceName bins
                 examples features slices = Ok slices')
   ↔ ∀ n, n ∈ (slicesToCreate featureLabel separator sliceName bins examples
                 features).*1 → n ∉ sliceNames slices)
  ∧ ∀ e, makeSlicesFromAllLabelCombos featureLabel separator sliceName bins
           examples features slices = Throw e → e = DuplicateNameError.
Proof.
  unfold makeSlicesFromAllLabelCombos. split; [split|].
  - intros [slices' H]. by apply addNamedSlices_Ok_inv in H as [_ H].
  - intros Hfresh. eexists. apply addNamedSlices_ok; [|done].
    apply slicesToCreate_NoDup.
  - intros e. apply addNamedSlices_Throw_inv.
Qed.

End features.

(** Grouping [splitDataset] by label and split: r1 and r4 share a slice,
    r3 has its own, r2 is in none. *)
Lemma grouping_by_features_example :
  let new := slicesToCreate plainLabel " " None () splitDataset ["label"; "split"] in
  new = [("pos train", {["r1"; "r4"]}); ("neg train", {["r3"]})]
  ∧ ⋃ new.*2
    = list_to_set
        (id <$> filter (λ r, Forall (λ f, is_Some (data r !! f)) ["label"; "split"])
                  splitDataset).
Proof.
  intros new. split; [vm_compute; reflexivity|].
  apply (grouping_by_features_partitions plainLabel " " None () splitDataset
           ["label"; "split"] (initial STARRED) (initial STARRED ++ new)).
  - compute_done.
  - vm_compute. reflexivity.
Defined.

End EditorProps.
